(** * A shallow embedding of [www/orm.py]

  The module is a small object-relational mapper on top of [aiomysql]:
  a connection-pool facade ([create_pool], [destroy_pool]), a statement
  executor ([select], [execute]), field descriptors, the metaclass that
  derives the SQL templates of an entity type, and the [Model] base class
  with its query helpers.

  Conventions of the embedding:
  - Python values are the first-order type [pyval]; [None] is a value.
  - A function that may raise returns a [result]; functions that talk to
    the database or touch the module global [__pool] run in the state and
    error monad [M] over [world].
  - The database driver is not part of the module.  It is a parameter
    ([driver]): for every call the module makes it decides, from the calls
    made so far, whether the call raises and what it hands back.  Every
    call the module issues is recorded in [trace].
  - Coroutines are run to completion: each [await] is a sequential call.
  - [logging] calls are not modelled. *)

From Stdlib Require Import ZArith String Ascii List Lia.
From stdpp Require Import base option list strings gmap.

Local Open Scope string_scope.
Local Open Scope list_scope.
Set Warnings "-register-all".

(** ** Python values, exceptions and results *)

Module Py.

Inductive pyval :=
| PNone
| PBool (b : bool)
| PInt (z : Z)
| PStr (s : string)
| PTuple (items : list pyval)
| PList (items : list pyval)
| PCallable (id : string)
| PObject (id : string).

(** [v is None] *)
Definition is_none (v : pyval) : bool :=
  match v with PNone => true | _ => false end.

(** [isinstance(v, int)]: [bool] is a subclass of [int]. *)
Definition isinstance_int (v : pyval) : bool :=
  match v with PInt _ | PBool _ => true | _ => false end.

(** [isinstance(v, tuple)] *)
Definition isinstance_tuple (v : pyval) : bool :=
  match v with PTuple _ => true | _ => false end.

(** [callable(v)] *)
Definition callable (v : pyval) : bool :=
  match v with PCallable _ => true | _ => false end.

(** [len(v)] of a tuple or a list *)
Definition len (v : pyval) : nat :=
  match v with PTuple items | PList items => length items | _ => 0 end.

(** The items of a tuple or a list *)
Definition items_of (v : pyval) : list pyval :=
  match v with PTuple items | PList items => items | _ => [] end.

(** Truth value of an optional string ([None] and [''] are false). *)
Definition truthy_str (o : option string) : bool :=
  match o with
  | Some s => negb (String.eqb s "")
  | None => false
  end.

(** Truth value of an optional integer ([None] and [0] are false). *)
Definition truthy_int (o : option Z) : bool :=
  match o with
  | Some z => negb (Z.eqb z 0)
  | None => false
  end.

(** An exception object: its class and its message. *)
Record exn := Exn { exn_class : string; exn_msg : string }.

(** The exception classes bound in the builtins of Python 3.  The module
    needs Python 3.5 or later ([async def], [await], [metaclass=]) and
    binds no exception class of its own. *)
Definition py3_exception_classes : list string :=
  [ "BaseException"; "Exception"; "ArithmeticError"; "AssertionError";
    "AttributeError"; "BufferError"; "EOFError"; "ImportError";
    "IndexError"; "KeyError"; "KeyboardInterrupt"; "LookupError";
    "MemoryError"; "NameError"; "NotImplementedError"; "OSError";
    "OverflowError"; "RecursionError"; "ReferenceError"; "RuntimeError";
    "StopIteration"; "StopAsyncIteration"; "SyntaxError"; "SystemError";
    "SystemExit"; "TypeError"; "UnboundLocalError"; "UnicodeError";
    "ValueError"; "ZeroDivisionError" ].

(** What reading an unbound global name raises. *)
Definition NameError (name : string) : exn :=
  Exn "NameError" ("name '" +:+ name +:+ "' is not defined").

(** What a missing dictionary key raises. *)
Definition KeyError (key : string) : exn :=
  Exn "KeyError" ("'" +:+ key +:+ "'").

(** The exception that leaves [raise cls(msg)]: the callee [cls] is
    evaluated first, and an unbound name raises [NameError] before the
    message is even built. *)
Definition raised (cls msg : string) : exn :=
  if bool_decide (cls ∈ py3_exception_classes) then Exn cls msg
  else NameError cls.

Inductive result (A : Type) :=
| Ok (a : A)
| Raise (e : exn).
Arguments Ok {A} a.
Arguments Raise {A} e.

Definition is_ok {A} (r : result A) : bool :=
  match r with Ok _ => true | Raise _ => false end.

(** ['?'.replace('?', '%s')] on a whole string: every question mark
    becomes the two characters [%s]. *)
Fixpoint replace_qmark (s : string) : string :=
  match s with
  | EmptyString => EmptyString
  | String c rest =>
      if Ascii.eqb c "?" then String "%" (String "s" (replace_qmark rest))
      else String c (replace_qmark rest)
  end.

(** Number of ['?'] markers in a template. *)
Fixpoint count_qmark (s : string) : nat :=
  match s with
  | EmptyString => 0
  | String c rest =>
      (if Ascii.eqb c "?" then 1 else 0) + count_qmark rest
  end.

(** [sep.join(parts)] *)
Definition join (sep : string) (parts : list string) : string :=
  String.concat sep parts.

End Py.
Export Py.

(** ** The driver and the module state *)

Module Db.

(** A row of a [DictCursor]: column name to value. *)
Abbreviation row := (gmap string pyval).

(** The calls the module makes on [aiomysql] objects. *)
Inductive event :=
| ECreatePool (kwargs : list (string * pyval))  (* aiomysql.create_pool(...) *)
| EPoolClose                                    (* __pool.close() *)
| EPoolWaitClosed                               (* __pool.wait_closed() *)
| EAcquire                                      (* entering __pool.get() *)
| ERelease                                      (* leaving __pool.get() *)
| EBegin                                        (* conn.begin() *)
| ECommit                                       (* conn.commit() *)
| ERollback                                     (* conn.rollback() *)
| ECursor                                       (* entering conn.cursor(...) *)
| ECursorClose                                  (* leaving conn.cursor(...) *)
| EExecute (sql : string) (args : list pyval)   (* cur.execute(sql, args) *)
| EFetchmany (size : Z)                         (* cur.fetchmany(size) *)
| EFetchall.                                    (* cur.fetchall() *)

(** The driver: for a call and the calls made before it, whether the
    call raises; the rows a fetch call returns; [cur.rowcount]. *)
Record driver := Driver {
  fails : list event -> event -> option exn;
  fetched : list event -> list row;
  rowcount : list event -> Z
}.

(** The module global [__pool]: not bound until [create_pool] assigns
    it; [None] or a pool object once bound. *)
Inductive binding := Unbound | BoundNone | BoundPool.

(** The state the module works on: its global [__pool], the calls made
    on the driver so far, and the list objects that callers share with the
    module, by address. *)
Record world := World {
  __pool : binding;
  trace : list event;
  heap : list (list pyval)
}.

(** The state of a freshly imported module: no statement at module level
    assigns [__pool]. *)
Definition imported : world := World Unbound [] [].

Definition M (A : Type) : Type := world -> result A * world.

Definition ret {A} (a : A) : M A := fun w => (Ok a, w).

Definition throw {A} (e : exn) : M A := fun w => (Raise e, w).

Definition bind {A B} (m : M A) (k : A -> M B) : M B :=
  fun w =>
    match m w with
    | (Ok a, w') => k a w'
    | (Raise e, w') => (Raise e, w')
    end.

(** [try: body except BaseException: handler] *)
Definition try_except {A} (body : M A) (handler : exn -> M A) : M A :=
  fun w =>
    match body w with
    | (Ok a, w') => (Ok a, w')
    | (Raise e, w') => handler e w'
    end.

(** [try: body finally: cleanup]; an exception of the cleanup replaces
    the one of the body. *)
Definition finally {A} (body : M A) (cleanup : M unit) : M A :=
  fun w =>
    match body w with
    | (r, w') =>
        match cleanup w' with
        | (Ok _, w'') => (r, w'')
        | (Raise e, w'') => (Raise e, w'')
        end
    end.

End Db.
Export Db.

Declare Scope py_scope.
Delimit Scope py_scope with py.
Notation "x <- m ;; k" := (bind m (fun x => k))
(at level 100, m at next level, right associativity) : py_scope.
Notation "m ;;; k" := (bind m (fun _ => k))
(at level 100, right associativity) : py_scope.
Local Open Scope py_scope.

(** ** Connection pool facade and statement executor *)

Section Executor.

Variable drv : driver.

(** One call on a driver object: it is recorded, and it raises when the
    driver says so. *)
Definition call (ev : event) : M unit :=
  fun w =>
    let w' := World (__pool w) (trace w ++ [ev]) (heap w) in
    match fails drv (trace w) ev with
    | Some e => (Raise e, w')
    | None => (Ok tt, w')
    end.

(** A fetch call and the rows it returns. *)
Definition call_fetch (ev : event) : M (list row) :=
  call ev ;;; (fun w => (Ok (fetched drv (trace w)), w)).

(** [async with cm as x: body]: the exit call is made on every path, and
    an exception of the exit call replaces the one of the body. *)
Definition async_with {A} (enter leave : event) (body : M A) : M A :=
  call enter ;;; finally body (call leave).

(** Reading the global [__pool]. *)
Definition load_pool : M binding :=
  fun w =>
    match __pool w with
    | Unbound => (Raise (NameError "__pool"), w)
    | b => (Ok b, w)
    end.

(** [__pool.get()]: the attribute is looked up on the value bound. *)
Definition pool_get : M unit :=
  b <- load_pool ;;
  match b with
  | BoundPool => ret tt
  | _ => throw (Exn "AttributeError"
                  "'NoneType' object has no attribute 'get'")
  end.

(** [kw.get(key, default)] *)
Definition kw_get (kw : gmap string pyval) (key : string) (default : pyval)
  : pyval :=
  match kw !! key with Some v => v | None => default end.

(** [kw[key]] *)
Definition kw_item (kw : gmap string pyval) (key : string) : M pyval :=
  match kw !! key with
  | Some v => ret v
  | None => throw (KeyError key)
  end.

Definition create_pool (kw : gmap string pyval) : M unit :=
  let host := kw_get kw "host" (PStr "localhost") in
  let port := kw_get kw "port" (PInt 3306) in
  user <- kw_item kw "user" ;;
  password <- kw_item kw "password" ;;
  db <- kw_item kw "db" ;;
  let charset := kw_get kw "charset" (PStr "utf8") in
  let autocommit := kw_get kw "autocommit" (PBool true) in
  let maxsize := kw_get kw "maxsize" (PInt 10) in
  let minsize := kw_get kw "minsize" (PInt 1) in
  call (ECreatePool [("host", host); ("port", port); ("user", user);
                     ("password", password); ("db", db);
                     ("charset", charset); ("autocommit", autocommit);
                     ("maxsize", maxsize); ("minsize", minsize)]) ;;;
  (fun w => (Ok tt, World BoundPool (trace w) (heap w))).

Definition destroy_pool : M unit :=
  b <- load_pool ;;
  match b with
  | BoundNone => ret tt
  | _ => call EPoolClose ;;; call EPoolWaitClosed
  end.

(** [args or ()] *)
Definition args_or_empty (args : option (list pyval)) : list pyval :=
  match args with
  | Some (a :: rest) => a :: rest
  | _ => []
  end.

Definition select (sql : string) (args : option (list pyval))
    (size : option Z) : M (list row) :=
  pool_get ;;;
  async_with EAcquire ERelease
    (async_with ECursor ECursorClose
       (call (EExecute (replace_qmark sql) (args_or_empty args)) ;;;
        match size with
        | Some n =>
            if truthy_int size then call_fetch (EFetchmany n)
            else call_fetch EFetchall
        | None => call_fetch EFetchall
        end)).

(** The body of the [try] statement of [execute]. *)
Definition execute_body (sql : string) (args : list pyval)
    (autocommit : bool) : M Z :=
  affected <-
    async_with ECursor ECursorClose
      (call (EExecute (replace_qmark sql) args) ;;;
       (fun w => (Ok (rowcount drv (trace w)), w))) ;;
  (if negb autocommit then call ECommit else ret tt) ;;;
  ret affected.

Definition execute (sql : string) (args : list pyval) (autocommit : bool)
  : M Z :=
  pool_get ;;;
  async_with EAcquire ERelease
    ((if negb autocommit then call EBegin else ret tt) ;;;
     try_except (execute_body sql args autocommit)
       (fun e =>
          (if negb autocommit then call ERollback else ret tt) ;;;
          throw e)).

End Executor.

(** [create_args_string(num)]: [num] question marks joined by [', ']. *)
Definition create_args_string (num : nat) : string :=
  join ", " (repeat "?" num).

(** ** Field descriptors *)

Module Field.

Record t := Make {
  name : option string;
  column_type : string;
  primary_key : bool;
  default : pyval
}.

End Field.

Abbreviation Field := Field.t.

Definition StringField (name : option string) (primary_key : bool)
    (default : pyval) (ddl : string) : Field :=
  Field.Make name ddl primary_key default.

Definition BooleanField (name : option string) (default : pyval) : Field :=
  Field.Make name "boolean" false default.

Definition IntegerField (name : option string) (primary_key : bool)
    (default : pyval) : Field :=
  Field.Make name "bigint" primary_key default.

Definition FloatField (name : option string) (primary_key : bool)
    (default : pyval) : Field :=
  Field.Make name "real" primary_key default.

Definition TextField (name : option string) (default : pyval) : Field :=
  Field.Make name "text" false default.

(** ** The metaclass *)

(** A value in the body of a class: a field descriptor or anything else. *)
Inductive attr :=
| AField (f : Field)
| AOther (v : pyval).

(** What [ModelMetaclass.__new__] stores on an entity type.  [__table__]
    aside, [namespace] is what is left of the class body once the mapped
    keys have been popped. *)
Record EntityType := {
  __name__ : string;
  __mappings__ : gmap string Field;
  __table__ : string;
  __primary_key__ : string;
  __fields__ : list string;
  __select__ : string;
  __insert__ : string;
  __update__ : string;
  __delete__ : string;
  namespace : list (string * attr)
}.

Inductive class_object :=
| PlainClass (name : string) (attrs : list (string * attr))
| EntityClass (cls : EntityType).

(** The three variables of the scanning loop. *)
Record scan_state := Scan {
  mappings : gmap string Field;
  fields : list string;
  primaryKey : option string
}.

(** The loop [for k, v in attrs.items()] of [__new__]. *)
Fixpoint scan (items : list (string * attr)) (st : scan_state)
  : result scan_state :=
  match items with
  | [] => Ok st
  | (k, AField v) :: rest =>
      let mappings' := <[k := v]> (mappings st) in
      if Field.primary_key v then
        if truthy_str (primaryKey st) then
          Raise (raised "StandardError"
                   ("Duplicate primary key for field: " +:+ k))
        else scan rest (Scan mappings' (fields st) (Some k))
      else scan rest (Scan mappings' (fields st ++ [k]) (primaryKey st))
  | (_, AOther _) :: rest => scan rest st
  end.

(** [lambda f: '`%s`' % f] *)
Definition escape (f : string) : string := "`" +:+ f +:+ "`".

(** [mappings.get(f).name or f] *)
Definition update_column (mappings : gmap string Field) (f : string)
  : result string :=
  match mappings !! f with
  | Some fld =>
      match Field.name fld with
      | Some n => if truthy_str (Some n) then Ok n else Ok f
      | None => Ok f
      end
  | None =>
      Raise (Exn "AttributeError"
               "'NoneType' object has no attribute 'name'")
  end.

(** [lambda f: '`%s`=?' % (mappings.get(f).name or f)] *)
Definition set_clause (mappings : gmap string Field) (f : string)
  : result string :=
  match update_column mappings f with
  | Ok c => Ok (escape c +:+ "=?")
  | Raise e => Raise e
  end.

(** [map(g, l)] for a [g] that may raise. *)
Fixpoint map_result {A B} (g : A -> result B) (l : list A)
  : result (list B) :=
  match l with
  | [] => Ok []
  | a :: rest =>
      match g a with
      | Ok b =>
          match map_result g rest with
          | Ok bs => Ok (b :: bs)
          | Raise e => Raise e
          end
      | Raise e => Raise e
      end
  end.

(** [ModelMetaclass.__new__(cls, name, bases, attrs)].  The class
    attribute [__table__], a string when it is declared, is the argument
    [table]; [attrs] holds the other entries of the class body in the
    order of [attrs.items()]. *)
Definition ModelMetaclass_new (name : string) (table : option string)
    (attrs : list (string * attr)) : result class_object :=
  if String.eqb name "Model" then Ok (PlainClass name attrs)
  else
    let tableName :=
      match table with
      | Some t => if truthy_str table then t else name
      | None => name
      end in
    match scan attrs (Scan ∅ [] None) with
    | Raise e => Raise e
    | Ok st =>
        match primaryKey st with
        | Some pk =>
            if negb (truthy_str (primaryKey st)) then
              Raise (raised "StandardError" "Primary key not found.")
            else
              let escaped_fields := map escape (fields st) in
              match map_result (set_clause (mappings st)) (fields st) with
              | Raise e => Raise e
              | Ok clauses =>
                  Ok (EntityClass {|
                    __name__ := name;
                    __mappings__ := mappings st;
                    __table__ := tableName;
                    __primary_key__ := pk;
                    __fields__ := fields st;
                    __select__ :=
                      "select `" +:+ pk +:+ "`, "
                      +:+ join ", " escaped_fields
                      +:+ " from `" +:+ tableName +:+ "`";
                    __insert__ :=
                      "insert into `" +:+ tableName +:+ "` ("
                      +:+ join ", " escaped_fields +:+ ", `" +:+ pk
                      +:+ "`) values ("
                      +:+ create_args_string (length escaped_fields + 1)
                      +:+ ")";
                    __update__ :=
                      "update `" +:+ tableName +:+ "` set "
                      +:+ join ", " clauses
                      +:+ " where `" +:+ pk +:+ "`=?";
                    __delete__ :=
                      "delete from `" +:+ tableName +:+ "` where `"
                      +:+ pk +:+ "`=?";
                    namespace :=
                      List.filter
                        (fun kv => negb (bool_decide
                                     (is_Some (mappings st !! kv.1))))
                        attrs
                  |})
              end
        | None => Raise (raised "StandardError" "Primary key not found.")
        end
    end.

(** ** The base class [Model] *)

(** An instance is a [dict]: attribute key to value. *)
Abbreviation instance := (gmap string pyval).

(** [Model.__init__(self, **kw)]: the keyword arguments become the entries
    of the instance. *)
Definition Model_init (kw : gmap string pyval) : instance := kw.

(** The functions defined in the body of [Model]. *)
Definition Model_functions : list string :=
  [ "__init__"; "__getattr__"; "__setattr__"; "getValue";
    "getValueOrDefault"; "findAll"; "findNumber"; "find"; "save";
    "update"; "remove" ].

Section Model.

Variable drv : driver.

(** The builtins the class relies on: [str(v)], the attributes an instance
    inherits from [dict] and [object], and what calling a callable object
    returns, given how many producer calls were made before. *)
Variable py_str : pyval -> string.
Variable inherited : string -> option pyval.
Variable produce : string -> nat -> pyval.

(** Ordinary attribute lookup on an instance of [cls], which Python tries
    before it falls back to [__getattr__]: the attributes the metaclass
    stored on the class, what is left of the class body, the functions of
    [Model] (as bound methods), then [dict] and [object]. *)
Definition class_lookup (cls : EntityType) (key : string) : option pyval :=
  let stored :=
    [ ("__mappings__", PObject "__mappings__");
      ("__table__", PStr (__table__ cls));
      ("__primary_key__", PStr (__primary_key__ cls));
      ("__fields__", PList (map PStr (__fields__ cls)));
      ("__select__", PStr (__select__ cls));
      ("__insert__", PStr (__insert__ cls));
      ("__update__", PStr (__update__ cls));
      ("__delete__", PStr (__delete__ cls)) ] in
  let body :=
    omap (fun kv => match kv.2 with
                    | AOther v => Some (kv.1, v)
                    | AField _ => None
                    end) (namespace cls) in
  let model :=
    map (fun f => (f, PCallable ("Model." +:+ f))) Model_functions in
  match List.find (fun kv => String.eqb kv.1 key) (stored ++ body ++ model)
  with
  | Some kv => Some kv.2
  | None => inherited key
  end.

(** [getattr(self, key, None)] with [Model.__getattr__] as the fallback:
    [self[key]], and [None] when the key is missing. *)
Definition getattr_or_none (cls : EntityType) (self : instance)
    (key : string) : pyval :=
  match class_lookup cls key with
  | Some v => v
  | None =>
      match self !! key with
      | Some v => v
      | None => PNone
      end
  end.

Definition getValue (cls : EntityType) (self : instance) (key : string)
  : pyval :=
  getattr_or_none cls self key.

(** [getValueOrDefault(self, key)]: the value returned, the instance after
    the call, and the number of producer calls made so far. *)
Definition getValueOrDefault (cls : EntityType) (self : instance)
    (key : string) (clock : nat) : result pyval * instance * nat :=
  let value := getattr_or_none cls self key in
  if is_none value then
    match __mappings__ cls !! key with
    | None => (Raise (KeyError key), self, clock)
    | Some field =>
        if negb (is_none (Field.default field)) then
          match Field.default field with
          | PCallable id =>
              let value := produce id clock in
              (Ok value, <[key := value]> self, S clock)
          | literal => (Ok literal, <[key := literal]> self, clock)
          end
        else (Ok value, self, clock)
    end
  else (Ok value, self, clock).

(** A new list object; its address is returned. *)
Definition new_list (l : list pyval) : M nat :=
  fun w => (Ok (length (heap w)),
            World (__pool w) (trace w) (heap w ++ [l])).

(** The items of the list object at an address. *)
Definition list_items (a : nat) : M (list pyval) :=
  fun w => (Ok (default [] (heap w !! a)), w).

(** [args.extend(more)] on the list object at address [a];
    [args.append(v)] is [list_extend a [v]]. *)
Definition list_extend (a : nat) (more : list pyval) : M unit :=
  fun w => (Ok tt,
            World (__pool w) (trace w)
              (alter (fun l => l ++ more) a (heap w))).

(** [Model.findAll(cls, where, args, orderBy=..., limit=...)].  [args] is
    the address of the caller's list, or [None]. *)
Definition findAll (cls : EntityType) (where_ : option string)
    (args : option nat) (orderBy : option string) (limit : pyval)
  : M (list instance) :=
  let sql := [__select__ cls] in
  let sql :=
    match where_ with
    | Some clause =>
        if truthy_str where_ then sql ++ ["where"; clause] else sql
    | None => sql
    end in
  args <- match args with
          | None => new_list []
          | Some a => ret a
          end ;;
  let sql :=
    match orderBy with
    | Some clause =>
        if truthy_str orderBy then sql ++ ["order by"; clause] else sql
    | None => sql
    end in
  sql <- (if negb (is_none limit) then
            let sql := sql ++ ["limit"] in
            if isinstance_int limit then
              list_extend args [limit] ;;; ret (sql ++ ["?"])
            else if isinstance_tuple limit && (len limit =? 2)%nat then
              list_extend args (items_of limit) ;;; ret (sql ++ ["?, ?"])
            else
              throw (raised "ValueError"
                       ("Invalid limit value: " +:+ py_str limit))
          else ret sql) ;;
  values <- list_items args ;;
  rs <- select drv (join " " sql) (Some values) None ;;
  ret (map Model_init rs).

(** [Model.find(cls, pk)] *)
Definition find (cls : EntityType) (pk : pyval) : M (option instance) :=
  rs <- select drv
          (__select__ cls +:+ " where `" +:+ __primary_key__ cls +:+ "`=?")
          (Some [pk]) (Some 1%Z) ;;
  match rs with
  | [] => ret None
  | r :: _ => ret (Some (Model_init r))
  end.

End Model.

(** ** The rest of [Model] *)

Section ModelRest.

Variable drv : driver.
Variable py_str : pyval -> string.
Variable inherited : string -> option pyval.
Variable produce : string -> nat -> pyval.

(** [Model.__getattr__(self, key)]: [self[key]], with the [KeyError] of a
    missing key turned into [AttributeError]. *)
Definition __getattr__ (self : instance) (key : string) : result pyval :=
  match self !! key with
  | Some v => Ok v
  | None =>
      Raise (Exn "AttributeError"
               ("'Model' object has no attribute '" +:+ key +:+ "'"))
  end.

(** [Model.__setattr__(self, key, value)]: [self[key] = value]. *)
Definition __setattr__ (self : instance) (key : string) (value : pyval)
  : instance :=
  <[key := value]> self.

(** The attribute read [self.key] on an instance of [cls]: ordinary lookup
    first, [__getattr__] when that finds nothing. *)
Definition read_attribute (cls : EntityType) (self : instance)
    (key : string) : result pyval :=
  match class_lookup inherited cls key with
  | Some v => Ok v
  | None => __getattr__ self key
  end.

(** [list(map(self.getValueOrDefault, keys))]: the keys are resolved from
    left to right, each on the instance the previous call left. *)
Fixpoint map_getValueOrDefault (cls : EntityType) (keys : list string)
    (self : instance) (clock : nat)
  : result (list pyval) * instance * nat :=
  match keys with
  | [] => (Ok [], self, clock)
  | key :: rest =>
      match getValueOrDefault inherited produce cls self key clock with
      | (Ok v, self1, clock1) =>
          match map_getValueOrDefault cls rest self1 clock1 with
          | (Ok vs, self2, clock2) => (Ok (v :: vs), self2, clock2)
          | (Raise e, self2, clock2) => (Raise e, self2, clock2)
          end
      | (Raise e, self1, clock1) => (Raise e, self1, clock1)
      end
  end.

(** The line a method logs with [logging.warning] when the statement did
    not affect exactly one row; [None] when it logs nothing. *)
Definition warning_unless_one (what : string) (rows : Z) : option string :=
  if Z.eqb rows 1 then None
  else Some (what +:+ py_str (PInt rows)).

(** [Model.save(self)].  The method returns nothing; the value here is the
    warning it logs, if any, next to the instance and the number of
    producer calls it leaves. *)
Definition save (cls : EntityType) (self : instance) (clock : nat)
    (w : world) : result (option string) * instance * nat * world :=
  match map_getValueOrDefault cls (__fields__ cls) self clock with
  | (Raise e, self1, clock1) => (Raise e, self1, clock1, w)
  | (Ok args, self1, clock1) =>
      match getValueOrDefault inherited produce cls self1
              (__primary_key__ cls) clock1 with
      | (Raise e, self2, clock2) => (Raise e, self2, clock2, w)
      | (Ok key_value, self2, clock2) =>
          match execute drv (__insert__ cls) (args ++ [key_value]) true w
          with
          | (Raise e, w') => (Raise e, self2, clock2, w')
          | (Ok rows, w') =>
              (Ok (warning_unless_one
                     "failed to insert record: affected rows: " rows),
               self2, clock2, w')
          end
      end
  end.

(** [Model.update(self)]; the value is the warning logged, if any. *)
Definition update (cls : EntityType) (self : instance)
  : M (option string) :=
  let args := map (getValue inherited cls self) (__fields__ cls) in
  let args := args ++ [getValue inherited cls self (__primary_key__ cls)] in
  rows <- execute drv (__update__ cls) args true ;;
  ret (warning_unless_one
         "failed to update by primary key: affected rows: " rows).

(** [Model.remove(self)]; the value is the warning logged, if any. *)
Definition remove (cls : EntityType) (self : instance)
  : M (option string) :=
  let args := [getValue inherited cls self (__primary_key__ cls)] in
  rows <- execute drv (__delete__ cls) args true ;;
  ret (warning_unless_one
         "failed to remove by primary key: affected rows: " rows).

(** [Model.findNumber(cls, selectField, where, args)]; [PNone] is the
    [None] returned when no row comes back. *)
Definition findNumber (cls : EntityType) (selectField : string)
    (where_ : option string) (args : option (list pyval)) : M pyval :=
  let sql :=
    ["select " +:+ selectField +:+ " _num_ from `" +:+ __table__ cls
     +:+ "`"] in
  let sql :=
    match where_ with
    | Some clause =>
        if truthy_str where_ then sql ++ ["where"; clause] else sql
    | None => sql
    end in
  rs <- select drv (join " " sql) args (Some 1%Z) ;;
  match rs with
  | [] => ret PNone
  | first :: _ =>
      match first !! "_num_" with
      | Some v => ret v
      | None => throw (KeyError "_num_")
      end
  end.

End ModelRest.

(** ** Declarative readings and sample data *)

(** The following definitions are not part of the module: they name what
    the specification speaks about, and fix the drivers, states and entity
    types used as examples. *)

(** A driver on which no call fails, with a fixed result set. *)
Definition steady (rows : list row) (affected : Z) : driver :=
  Driver (fun _ _ => None) (fun _ => rows) (fun _ => affected).

(** The module state once the pool was created. *)
Definition ready : world := World BoundPool [] [].

(** A row with the single column [id]. *)
Definition row_of (id : Z) : row := <["id" := PInt id]> ∅.

(** The entity type of the module's own example: [class User(Model)]. *)
Definition User_attrs : list (string * attr) :=
  [ ("id", AField (IntegerField (Some "id") true (PInt 0)));
    ("username",
     AField (StringField (Some "username") false PNone "varchar(100)"));
    ("email",
     AField (StringField (Some "email") false PNone "varchar(100)"));
    ("password",
     AField (StringField (Some "password") false PNone "varchar(100)")) ].

Definition User : EntityType := {|
  __name__ := "User";
  __mappings__ :=
    <["password" := StringField (Some "password") false PNone "varchar(100)"]>
    (<["email" := StringField (Some "email") false PNone "varchar(100)"]>
    (<["username" := StringField (Some "username") false PNone "varchar(100)"]>
    (<["id" := IntegerField (Some "id") true (PInt 0)]> ∅)));
  __table__ := "User";
  __primary_key__ := "id";
  __fields__ := ["username"; "email"; "password"];
  __select__ := "select `id`, `username`, `email`, `password` from `User`";
  __insert__ :=
    "insert into `User` (`username`, `email`, `password`, `id`) values (?, ?, ?, ?)";
  __update__ :=
    "update `User` set `username`=?, `email`=?, `password`=? where `id`=?";
  __delete__ := "delete from `User` where `id`=?";
  namespace := []
|}.

(** What the specification says of a failing statement without
    autocommit, read literally: the exception of the statement is the one
    that leaves [execute]. *)
Definition reraises_original : Prop :=
  forall drv sql args w e,
    __pool w = BoundPool ->
    fails drv (trace w) EAcquire = None ->
    fails drv (trace w ++ [EAcquire]) EBegin = None ->
    fails drv (trace w ++ [EAcquire; EBegin]) ECursor = None ->
    fails drv (trace w ++ [EAcquire; EBegin; ECursor])
      (EExecute (replace_qmark sql) args) = Some e ->
    (execute drv sql args false w).1 = Raise e.

(** A driver that loses its connection while the statement runs: the
    statement fails, and so does the rollback that follows. *)
Definition lost_connection : driver :=
  Driver
    (fun _ ev =>
       match ev with
       | EExecute _ _ => Some (Exn "OperationalError" "Lost connection")
       | ERollback => Some (Exn "InterfaceError" "(0, '')")
       | _ => None
       end)
    (fun _ => []) (fun _ => 0%Z).

(** A driver on which the statement violates a constraint; every other
    call, the rollback included, returns. *)
Definition rejects_statement : driver :=
  Driver
    (fun _ ev =>
       match ev with
       | EExecute _ _ => Some (Exn "IntegrityError" "Duplicate entry")
       | _ => None
       end)
    (fun _ => []) (fun _ => 0%Z).

(** [str] on the strings used in the examples. *)
Definition str_of (v : pyval) : string :=
  match v with PStr s => s | _ => "" end.

(** An entity type with a column called [update], the name of a method
    of [Model]. *)
Definition Job_attrs : list (string * attr) :=
  [ ("id", AField (IntegerField None true (PCallable "next_id")));
    ("update", AField (StringField None false (PStr "never") "varchar(100)")) ].

(** The class body read declaratively: the keys of the fields flagged as
    primary key, and the keys of the other fields, in declaration order. *)
Definition is_key_field (kv : string * attr) : bool :=
  match kv.2 with
  | AField f => Field.primary_key f
  | AOther _ => false
  end.

Definition is_other_field (kv : string * attr) : bool :=
  match kv.2 with
  | AField f => negb (Field.primary_key f)
  | AOther _ => false
  end.

Definition primary_keys (attrs : list (string * attr)) : list string :=
  map fst (List.filter is_key_field attrs).

Definition other_fields (attrs : list (string * attr)) : list string :=
  map fst (List.filter is_other_field attrs).

(** The column that the update template sets for the field declared
    under [key]: its declared name, unless that is [None] or empty. *)
Definition declared_column (key : string) (f : Field) : string :=
  match Field.name f with
  | Some n => if String.eqb n "" then key else n
  | None => key
  end.

(** Kinds of driver calls, to count them in a trace. *)
Definition is_acquire (ev : event) : bool :=
  match ev with EAcquire => true | _ => false end.

Definition is_release (ev : event) : bool :=
  match ev with ERelease => true | _ => false end.

Definition is_cursor_close (ev : event) : bool :=
  match ev with ECursorClose => true | _ => false end.

Definition is_statement (ev : event) : bool :=
  match ev with EExecute _ _ => true | _ => false end.

Definition is_fetch (ev : event) : bool :=
  match ev with EFetchmany _ | EFetchall => true | _ => false end.

Definition is_bounded_fetch (ev : event) : bool :=
  match ev with EFetchmany _ => true | _ => false end.

Definition is_transaction_control (ev : event) : bool :=
  match ev with EBegin | ECommit | ERollback => true | _ => false end.

Definition count_calls (kind : event -> bool) (calls : list event) : nat :=
  length (List.filter kind calls).

(** What [__pool.get()] raises when there is no pool object. *)
Definition no_pool_error (b : binding) : exn :=
  match b with
  | Unbound => NameError "__pool"
  | _ => Exn "AttributeError" "'NoneType' object has no attribute 'get'"
  end.

(** The first of the three required keys that [kw] lacks. *)
Definition first_missing (kw : gmap string pyval) : string :=
  match kw !! "user", kw !! "password" with
  | None, _ => "user"
  | Some _, None => "password"
  | Some _, Some _ => "db"
  end.

(** A driver that refuses every call, as a server that denies access. *)
Definition access_denied : driver :=
  Driver (fun _ _ => Some (Exn "OperationalError" "Access denied"))
    (fun _ => []) (fun _ => 0%Z).

(** The keyword arguments [create_pool] passes when only the three
    required keys are given. *)
Definition default_pool_kwargs (user password db : pyval)
  : list (string * pyval) :=
  [("host", PStr "localhost"); ("port", PInt 3306); ("user", user);
   ("password", password); ("db", db); ("charset", PStr "utf8");
   ("autocommit", PBool true); ("maxsize", PInt 10); ("minsize", PInt 1)].

(** The fetch call [select] makes for a given [size]. *)
Definition fetch_for (size : option Z) : event :=
  match size with
  | Some n => if Z.eqb n 0 then EFetchall else EFetchmany n
  | None => EFetchall
  end.

(** An entry of the class body that is not a field descriptor. *)
Definition is_plain_attr (kv : string * attr) : bool :=
  match kv.2 with
  | AOther _ => true
  | AField _ => false
  end.

(** The table name [__new__] settles on. *)
Definition table_name_for (name : string) (table : option string) : string :=
  match table with
  | Some t => if String.eqb t "" then name else t
  | None => name
  end.

(** The value an instance holds under a key, [None] when it holds
    none. *)
Definition stored_or_none (self : instance) (key : string) : pyval :=
  match self !! key with
  | Some v => v
  | None => PNone
  end.

(** A clause that is appended to a statement only when it is given and
    not empty. *)
Definition optional_clause (keyword : string) (clause : option string)
  : string :=
  match clause with
  | Some text => if String.eqb text "" then "" else keyword +:+ text
  | None => ""
  end.

(** The statement of [findNumber], written out. *)
Definition findNumber_statement (cls : EntityType) (selectField : string)
    (where_ : option string) : string :=
  "select " +:+ selectField +:+ " _num_ from `" +:+ __table__ cls +:+ "`"
  +:+ optional_clause " where " where_.

(** What [findAll] appends to the caller's arguments for a limit. *)
Definition limit_values (limit : pyval) : list pyval :=
  match limit with
  | PNone => []
  | PTuple items => items
  | other => [other]
  end.

(** The limit clause of [findAll] for a limit that is absent, an integer
    or a tuple of two items. *)
Definition limit_clause (limit : pyval) : string :=
  match limit with
  | PNone => ""
  | PTuple _ => " limit ?, ?"
  | _ => " limit ?"
  end.

(** The statement of [findAll], written out. *)
Definition findAll_statement (cls : EntityType)
    (where_ orderBy : option string) (limit : pyval) : string :=
  __select__ cls +:+ optional_clause " where " where_
  +:+ optional_clause " order by " orderBy +:+ limit_clause limit.

(** A limit that [findAll] accepts. *)
Definition limit_accepted (limit : pyval) : Prop :=
  limit = PNone \/ isinstance_int limit = true
  \/ exists x y, limit = PTuple [x; y].

(** The list [sql] of [findAll] before the limit is looked at. *)
Definition findAll_parts (cls : EntityType) (where_ orderBy : option string)
  : list string :=
  let sql := [__select__ cls] in
  let sql :=
    match where_ with
    | Some clause =>
        if truthy_str where_ then sql ++ ["where"; clause] else sql
    | None => sql
    end in
  match orderBy with
  | Some clause =>
      if truthy_str orderBy then sql ++ ["order by"; clause] else sql
  | None => sql
  end.

(** The list the caller passed as [args], empty when it passed none. *)
Definition callers_args (args : option nat) (w : world) : list pyval :=
  match args with
  | Some a => default [] (heap w !! a)
  | None => []
  end.

(** * Properties *)

(** ** Strings *)

Lemma count_qmark_app (a b : string) :
  count_qmark (a +:+ b) = count_qmark a + count_qmark b.
Proof.
  induction a as [|c a IH]; simpl; [reflexivity|].
  rewrite IH. lia.
Qed.

Lemma replace_qmark_app (a b : string) :
  replace_qmark (a +:+ b) = replace_qmark a +:+ replace_qmark b.
Proof.
  induction a as [|c a IH]; simpl; [reflexivity|].
  destruct (Ascii.eqb c "?"); simpl; now rewrite IH.
Qed.

(** After the replacement no placeholder marker of the module is left. *)
Lemma replace_qmark_no_qmark (s : string) :
  count_qmark (replace_qmark s) = 0.
Proof.
  induction s as [|c s IH]; simpl; [reflexivity|].
  destruct (Ascii.eqb c "?") eqn:E; simpl; [exact IH|].
  now rewrite E.
Qed.

(** A template without markers is passed to the driver as it is. *)
Lemma replace_qmark_id (s : string) :
  count_qmark s = 0 -> replace_qmark s = s.
Proof.
  induction s as [|c s IH]; simpl; [reflexivity|].
  destruct (Ascii.eqb c "?"); [discriminate|].
  intros H. now rewrite IH.
Qed.

Lemma count_qmark_join (sep : string) (parts : list string) :
  count_qmark (join sep parts)
  = list_sum (map count_qmark parts)
    + (length parts - 1) * count_qmark sep.
Proof.
  unfold join.
  induction parts as [|p parts IH]; [reflexivity|].
  destruct parts as [|q parts].
  - simpl. lia.
  - change (String.concat sep (p :: q :: parts))
      with (p +:+ sep +:+ String.concat sep (q :: parts)).
    rewrite !count_qmark_app, IH. simpl. lia.
Qed.

Lemma count_qmark_create_args_string (num : nat) :
  count_qmark (create_args_string num) = num.
Proof.
  unfold create_args_string. rewrite count_qmark_join.
  change (count_qmark ", ") with 0.
  rewrite Nat.mul_0_r, Nat.add_0_r.
  induction num as [|n IH]; [reflexivity|].
  simpl. now rewrite IH.
Qed.

(** ** The executor *)

Ltac unfold_monad :=
  unfold execute, execute_body, select, destroy_pool, pool_get, load_pool,
    async_with, finally, try_except, call_fetch, call, bind, ret, throw
    in *.

Ltac case_calls :=
  repeat match goal with
         | |- context [fails ?d ?h ?e] =>
             let E := fresh "E" in
             destruct (fails d h e) eqn:E; simpl
         end.

(** One more driver call that is known not to fail. *)
Ltac advance H := rewrite <- ?app_assoc; simpl; rewrite H; simpl.

Section ExecutorFacts.

Variable drv : driver.

Lemma call_ok (ev : event) (w : world) :
  fails drv (trace w) ev = None ->
  call drv ev w = (Ok tt, World (__pool w) (trace w ++ [ev]) (heap w)).
Proof. intros H. unfold call. now rewrite H. Qed.

Lemma call_raise (ev : event) (w : world) (e : exn) :
  fails drv (trace w) ev = Some e ->
  call drv ev w = (Raise e, World (__pool w) (trace w ++ [ev]) (heap w)).
Proof. intros H. unfold call. now rewrite H. Qed.

(** No executor function touches the caller's lists or rebinds the
    pool. *)
Lemma select_frame sql args size w :
  heap (select drv sql args size w).2 = heap w
  /\ __pool (select drv sql args size w).2 = __pool w.
Proof.
  unfold_monad. destruct (__pool w) eqn:Hp; simpl; auto.
  destruct size as [n|]; [destruct (truthy_int (Some n))|];
    case_calls; auto.
Qed.

Lemma execute_frame sql args autocommit w :
  heap (execute drv sql args autocommit w).2 = heap w
  /\ __pool (execute drv sql args autocommit w).2 = __pool w.
Proof.
  unfold_monad. destruct (__pool w) eqn:Hp; simpl; auto.
  destruct autocommit; simpl; case_calls; auto.
Qed.

(** What the guard of [destroy_pool] is there for: a pool bound to
    [None] is left alone. *)
Lemma destroy_pool_none (w : world) :
  __pool w = BoundNone -> destroy_pool drv w = (Ok tt, w).
Proof. intros H. unfold_monad. now rewrite H. Qed.

(** A pool that was created is closed, then drained. *)
Lemma destroy_pool_bound (w : world) :
  __pool w = BoundPool ->
  fails drv (trace w) EPoolClose = None ->
  fails drv (trace w ++ [EPoolClose]) EPoolWaitClosed = None ->
  destroy_pool drv w
  = (Ok tt,
     World BoundPool (trace w ++ [EPoolClose; EPoolWaitClosed]) (heap w)).
Proof.
  intros Hp H1 H2. unfold_monad. rewrite Hp. simpl.
  rewrite H1. simpl. rewrite H2. simpl.
  now rewrite Hp, <- app_assoc.
Qed.

(** The pool is not bound to [None] by the module itself: [create_pool]
    binds it to a pool object, and a second [destroy_pool] closes again. *)
Lemma create_pool_binds (kw : gmap string pyval) (w w' : world) :
  create_pool drv kw w = (Ok tt, w') -> __pool w' = BoundPool.
Proof.
  unfold create_pool, kw_item, call, bind, ret, throw.
  destruct (kw !! "user"); [|discriminate].
  destruct (kw !! "password"); [|discriminate].
  destruct (kw !! "db"); [|discriminate].
  simpl. case_calls; [discriminate|].
  intros [= <-]. reflexivity.
Qed.

End ExecutorFacts.

(** C8.  [destroy_pool] on a pool that was never created is not a no-op:
    the global [__pool] is bound nowhere but in [create_pool], so the
    guard [if __pool is not None] raises [NameError] when it reads the
    name.  Nothing is closed and the module state is unchanged. *)
Theorem destroy_pool_never_created_raises :
  forall drv : driver,
    destroy_pool drv imported = (Raise (NameError "__pool"), imported)
    /\ exn_class (NameError "__pool") = "NameError".
Proof. intros drv. split; reflexivity. Qed.

(** C5.  [select] with [size=0] does not cap the fetch: the test
    [if size] is false for [0], so the call behaves as if no size were
    given and [fetchall] is issued; on a result set of two rows both are
    returned. *)
Theorem select_size_zero_fetches_all :
  (forall drv sql args w,
      select drv sql args (Some 0%Z) w = select drv sql args None w)
  /\ select (steady [row_of 8; row_of 9] 0) "select `id` from `t`" None
       (Some 0%Z) ready
     = (Ok [row_of 8; row_of 9],
        World BoundPool
          [EAcquire; ECursor; EExecute "select `id` from `t`" [];
           EFetchall; ECursorClose; ERelease] []).
Proof. split; [intros; reflexivity | reflexivity]. Qed.

(** With a size other than [0], and a driver on which no call fails,
    [select] passes the template with every ['?'] turned into ['%s'],
    then makes one bounded fetch and returns its rows. *)
Lemma select_sized drv sql args (n : Z) w :
  __pool w = BoundPool ->
  n <> 0%Z ->
  let calls :=
    [EAcquire; ECursor; EExecute (replace_qmark sql) (args_or_empty args);
     EFetchmany n; ECursorClose; ERelease] in
  (forall i ev, calls !! i = Some ev ->
                fails drv (trace w ++ take i calls) ev = None) ->
  select drv sql args (Some n) w
  = (Ok (fetched drv (trace w ++ take 4 calls)),
     World BoundPool (trace w ++ calls) (heap w)).
Proof.
  intros Hp Hn calls Hok.
  pose proof (Hok 0 _ eq_refl) as H0. pose proof (Hok 1 _ eq_refl) as H1.
  pose proof (Hok 2 _ eq_refl) as H2. pose proof (Hok 3 _ eq_refl) as H3.
  pose proof (Hok 4 _ eq_refl) as H4. pose proof (Hok 5 _ eq_refl) as H5.
  simpl in H0, H1, H2, H3, H4, H5. rewrite app_nil_r in H0.
  assert (Hz : (n =? 0)%Z = false) by now apply Z.eqb_neq.
  unfold_monad. unfold truthy_int. rewrite Hp, Hz. simpl.
  advance H0. advance H1. advance H2. advance H3. advance H4. advance H5.
  rewrite <- ?app_assoc. simpl. now rewrite Hp.
Qed.

(** Without a size, [fetchall] is issued instead. *)
Lemma select_unsized drv sql args w :
  __pool w = BoundPool ->
  let calls :=
    [EAcquire; ECursor; EExecute (replace_qmark sql) (args_or_empty args);
     EFetchall; ECursorClose; ERelease] in
  (forall i ev, calls !! i = Some ev ->
                fails drv (trace w ++ take i calls) ev = None) ->
  select drv sql args None w
  = (Ok (fetched drv (trace w ++ take 4 calls)),
     World BoundPool (trace w ++ calls) (heap w)).
Proof.
  intros Hp calls Hok.
  pose proof (Hok 0 _ eq_refl) as H0. pose proof (Hok 1 _ eq_refl) as H1.
  pose proof (Hok 2 _ eq_refl) as H2. pose proof (Hok 3 _ eq_refl) as H3.
  pose proof (Hok 4 _ eq_refl) as H4. pose proof (Hok 5 _ eq_refl) as H5.
  simpl in H0, H1, H2, H3, H4, H5. rewrite app_nil_r in H0.
  unfold_monad. rewrite Hp. simpl.
  advance H0. advance H1. advance H2. advance H3. advance H4. advance H5.
  rewrite <- ?app_assoc. simpl. now rewrite Hp.
Qed.

Lemma User_declared :
  ModelMetaclass_new "User" None User_attrs = Ok (EntityClass User).
Proof. reflexivity. Qed.

(** C7.  On a created pool and a driver on which no call fails,
    [find(pk)] issues the select-by-key statement with [pk] as its only
    argument, fetches with [fetchmany(1)], and returns [None] when no row
    came back, else one instance built from the first row. *)
Theorem find_by_primary_key :
  forall (drv : driver) (cls : EntityType) (pk : pyval) (w : world),
    __pool w = BoundPool ->
    let calls :=
      [EAcquire; ECursor;
       EExecute (replace_qmark (__select__ cls +:+ " where `"
                                +:+ __primary_key__ cls +:+ "`=?")) [pk];
       EFetchmany 1; ECursorClose; ERelease] in
    (forall i ev, calls !! i = Some ev ->
                  fails drv (trace w ++ take i calls) ev = None) ->
    find drv cls pk w
    = (Ok match fetched drv (trace w ++ take 4 calls) with
          | [] => None
          | first :: _ => Some (Model_init first)
          end,
       World BoundPool (trace w ++ calls) (heap w)).
Proof.
  intros drv cls pk w Hp calls Hok.
  unfold find, bind.
  assert (Hone : 1%Z <> 0%Z) by discriminate.
  rewrite (select_sized drv _ (Some [pk]) 1 w Hp Hone Hok).
  subst calls. cbn [args_or_empty].
  now destruct (fetched drv _).
Qed.

(** Whatever the driver does, [find] returns in no other way: a normal
    return means those six calls were made, with the single-row fetch, and
    the value is read off the rows of that fetch. *)
Lemma find_returns drv cls pk w r w' :
  find drv cls pk w = (Ok r, w') ->
  let calls :=
    [EAcquire; ECursor;
     EExecute (replace_qmark (__select__ cls +:+ " where `"
                              +:+ __primary_key__ cls +:+ "`=?")) [pk];
     EFetchmany 1; ECursorClose; ERelease] in
  trace w' = trace w ++ calls
  /\ r = match fetched drv (trace w ++ take 4 calls) with
         | [] => None
         | first :: _ => Some (Model_init first)
         end.
Proof.
  unfold find. unfold_monad. destruct (__pool w); simpl; try discriminate.
  case_calls; try discriminate;
    rewrite <- ?app_assoc; simpl;
    destruct (fetched drv _); intros [= <- <-]; simpl;
    rewrite <- ?app_assoc; auto.
Qed.

Lemma find_by_primary_key_witness :
  find (steady [row_of 8] 0) User (PInt 8) ready
  = (Ok (Some (row_of 8)),
     World BoundPool
       [EAcquire; ECursor;
        EExecute
          "select `id`, `username`, `email`, `password` from `User` where `id`=%s"
          [PInt 8];
        EFetchmany 1; ECursorClose; ERelease] []).
Proof.
  apply (find_by_primary_key (steady [row_of 8] 0) User (PInt 8) ready).
  - reflexivity.
  - intros i ev _. reflexivity.
Defined.

(** The [try] body of [execute] completes only after every call in it
    returned: cursor, statement, cursor close and, without autocommit,
    the commit, which is then the last call made. *)
Lemma execute_body_ok drv sql args w n w' :
  execute_body drv sql args false w = (Ok n, w') ->
  trace w' = trace w ++ [ECursor; EExecute (replace_qmark sql) args;
                         ECursorClose; ECommit]
  /\ n = rowcount drv (trace w ++ [ECursor;
                                   EExecute (replace_qmark sql) args]).
Proof.
  unfold_monad. simpl. case_calls; try discriminate.
  intros [= <- <-]. simpl. rewrite <- !app_assoc. auto.
Qed.

(** Without autocommit, a statement on which cursor, statement and cursor
    close return is followed by the commit. *)
Lemma execute_body_commits drv sql args w :
  let stmt := EExecute (replace_qmark sql) args in
  fails drv (trace w) ECursor = None ->
  fails drv (trace w ++ [ECursor]) stmt = None ->
  fails drv (trace w ++ [ECursor; stmt]) ECursorClose = None ->
  trace (execute_body drv sql args false w).2
  = trace w ++ [ECursor; stmt; ECursorClose; ECommit].
Proof.
  intros stmt H1 H2 H3. subst stmt. unfold_monad. simpl.
  advance H1. advance H2. advance H3.
  case_calls; now rewrite <- !app_assoc.
Qed.

(** C3, as stated, fails: when the rollback raises too, its exception
    leaves [execute], not the one of the statement. *)
Lemma execute_rollback_failure_masks_original :
  execute lost_connection "delete from `t` where `id`=?" [PInt 1] false
    ready
  = (Raise (Exn "InterfaceError" "(0, '')"),
     World BoundPool
       [EAcquire; EBegin; ECursor;
        EExecute "delete from `t` where `id`=%s" [PInt 1];
        ECursorClose; ERollback; ERelease] [])
  /\ ~ reraises_original.
Proof.
  split; [reflexivity|].
  intros H.
  specialize (H lost_connection "delete from `t` where `id`=?" [PInt 1]
                ready (Exn "OperationalError" "Lost connection")
                eq_refl eq_refl eq_refl eq_refl eq_refl).
  discriminate H.
Qed.

(** Closes [new = pre ++ stmt :: post -> In EBegin pre] on an explicit
    list of calls that has no statement among its first two. *)
Ltac begin_first :=
  let pre := fresh "pre" in
  let post := fresh "post" in
  let H := fresh "H" in
  intros pre post H;
  destruct pre as [|? [|? pre]]; simpl in H;
  try discriminate H;
  injection H as ? ? H; subst; simpl; auto.

(** C3 (amended).  For every call of [execute] without autocommit:
    [begin] is issued before the statement; once cursor, statement and
    cursor close have returned the commit is issued next, and when it and
    the release return the call returns [rowcount] with no rollback made;
    whenever the [try] body raises [e] the rollback is issued right after
    it and the call ends in an exception, which is [e] itself provided
    the rollback and the release of the connection return.  With
    autocommit no [begin], [commit] or [rollback] is issued. *)
Theorem execute_transaction_discipline :
  forall (drv : driver) (sql : string) (args : list pyval) (w : world),
    let stmt := EExecute (replace_qmark sql) args in
    let out := execute drv sql args false w in
    (exists new, trace out.2 = trace w ++ new
       /\ forall pre post, new = pre ++ stmt :: post -> In EBegin pre)
    /\ (__pool w = BoundPool ->
        fails drv (trace w) EAcquire = None ->
        fails drv (trace w ++ [EAcquire]) EBegin = None ->
        let w2 := World BoundPool (trace w ++ [EAcquire; EBegin]) (heap w) in
        (fails drv (trace w ++ [EAcquire; EBegin]) ECursor = None ->
         fails drv (trace w ++ [EAcquire; EBegin; ECursor]) stmt = None ->
         fails drv (trace w ++ [EAcquire; EBegin; ECursor; stmt])
           ECursorClose = None ->
         exists rest,
           trace out.2
           = trace w ++ [EAcquire; EBegin; ECursor; stmt; ECursorClose;
                         ECommit] ++ rest
           /\ (fails drv (trace w ++ [EAcquire; EBegin; ECursor; stmt;
                                      ECursorClose]) ECommit = None ->
               rest = [ERelease]
               /\ (fails drv (trace w ++ [EAcquire; EBegin; ECursor; stmt;
                                          ECursorClose; ECommit])
                     ERelease = None ->
                   out.1 = Ok (rowcount drv
                                 (trace w ++ [EAcquire; EBegin; ECursor;
                                              stmt])))))
        /\ (forall e w3,
               execute_body drv sql args false w2 = (Raise e, w3) ->
               trace out.2 = trace w3 ++ [ERollback; ERelease]
               /\ is_ok out.1 = false
               /\ (fails drv (trace w3) ERollback = None ->
                   fails drv (trace w3 ++ [ERollback]) ERelease = None ->
                   out.1 = Raise e)))
    /\ (exists new,
          trace (execute drv sql args true w).2 = trace w ++ new
          /\ ~ In EBegin new /\ ~ In ECommit new /\ ~ In ERollback new).
Proof.
  intros drv sql args w stmt out. subst out stmt.
  split; [|split].
  - unfold_monad. destruct (__pool w); simpl;
      try (exists []; split; [now rewrite app_nil_r | begin_first]).
    case_calls; rewrite <- ?app_assoc; simpl;
      (eexists; split; [reflexivity | begin_first]).
  - intros Hp Ha Hb w2. split.
    + intros Hc Hs Hx. clear w2.
      unfold_monad. rewrite Hp. simpl.
      advance Ha. advance Hb. advance Hc. advance Hs. advance Hx.
      rewrite <- ?app_assoc. simpl.
      case_calls; rewrite <- ?app_assoc; simpl;
        (eexists; split; [reflexivity|]);
        intros Hcommit; try discriminate Hcommit;
        (split; [reflexivity|]);
        intros Hrelease; try discriminate Hrelease; reflexivity.
    + intros e w3 Hbody. subst w2.
      unfold execute, pool_get, load_pool, async_with, finally, try_except,
        bind, ret, throw, call.
      rewrite Hp. simpl. advance Ha. advance Hb.
      rewrite Hp, <- ?app_assoc. simpl. rewrite Hbody.
      destruct (fails drv (trace w3) ERollback) eqn:Er; simpl;
        destruct (fails drv (trace w3 ++ [ERollback]) ERelease) eqn:El;
        simpl; rewrite <- ?app_assoc; simpl;
        (split; [reflexivity|]); (split; [reflexivity|]);
        intros; congruence.
  - unfold_monad. destruct (__pool w); simpl;
      try (exists []; split; [now rewrite app_nil_r | simpl; tauto]).
    case_calls; rewrite <- ?app_assoc; simpl;
      (eexists; split; [reflexivity|]);
      simpl; intuition discriminate.
Qed.

Lemma execute_transaction_discipline_witness :
  (execute rejects_statement "insert into `t` (`id`) values (?)" [PInt 1]
     false ready).1
  = Raise (Exn "IntegrityError" "Duplicate entry")
  /\ trace (execute rejects_statement "insert into `t` (`id`) values (?)"
              [PInt 1] false ready).2
     = [EAcquire; EBegin; ECursor;
        EExecute "insert into `t` (`id`) values (%s)" [PInt 1];
        ECursorClose; ERollback; ERelease]
  /\ (execute (steady [] 1) "insert into `t` (`id`) values (?)" [PInt 1]
        false ready).1
     = Ok 1%Z.
Proof.
  destruct (execute_transaction_discipline rejects_statement
              "insert into `t` (`id`) values (?)" [PInt 1] ready)
    as (_ & Hfail & _).
  destruct (Hfail eq_refl eq_refl eq_refl) as [_ Hraise].
  destruct (Hraise (Exn "IntegrityError" "Duplicate entry")
              (World BoundPool
                 [EAcquire; EBegin; ECursor;
                  EExecute "insert into `t` (`id`) values (%s)" [PInt 1];
                  ECursorClose] [])
              eq_refl) as (Htrace & _ & Hsame).
  destruct (execute_transaction_discipline (steady [] 1)
              "insert into `t` (`id`) values (?)" [PInt 1] ready)
    as (_ & Hdone & _).
  destruct (Hdone eq_refl eq_refl eq_refl) as [Hcommit _].
  destruct (Hcommit eq_refl eq_refl eq_refl) as (rest & _ & Hrest).
  destruct (Hrest eq_refl) as [_ Hret].
  split; [exact (Hsame eq_refl eq_refl)|].
  split; [exact Htrace | exact (Hret eq_refl)].
Defined.

(** ** Query helpers of [Model] *)

Lemma raised_ValueError (msg : string) :
  raised "ValueError" msg = Exn "ValueError" msg.
Proof. reflexivity. Qed.

(** C6.  A limit that is given ([limit] is not [None], the value
    [kw.get] yields when there is none) and is neither an integer nor a
    tuple of two items makes [findAll] raise [ValueError] before any call
    on the pool or the driver: the trace is unchanged, and so is every
    list the caller holds. *)
Theorem findAll_rejects_malformed_limit :
  forall (drv : driver) (py_str : pyval -> string) (cls : EntityType)
         (where_ : option string) (args : option nat)
         (orderBy : option string) (limit : pyval) (w : world),
    limit <> PNone ->
    isinstance_int limit = false ->
    (forall a b, limit <> PTuple [a; b]) ->
    exists w',
      findAll drv py_str cls where_ args orderBy limit w
      = (Raise (Exn "ValueError" ("Invalid limit value: " +:+ py_str limit)),
         w')
      /\ trace w' = trace w
      /\ __pool w' = __pool w
      /\ forall a, a < length (heap w) -> heap w' !! a = heap w !! a.
Proof.
  intros drv py_str cls where_ args orderBy limit w Hnone Hint Hpair.
  assert (Hbranch : isinstance_tuple limit && (len limit =? 2)%nat = false).
  { destruct limit as [| | | |items| | |]; try reflexivity.
    destruct items as [|a [|b [|c items]]]; try reflexivity.
    now destruct (Hpair a b). }
  assert (Hgiven : is_none limit = false)
    by (destruct limit; try reflexivity; now destruct Hnone).
  unfold findAll, bind, new_list, list_items, list_extend, ret, throw.
  destruct args as [a|]; simpl;
    rewrite Hgiven, Hint, Hbranch; simpl; rewrite raised_ValueError;
    eexists; (split; [reflexivity|]); simpl; repeat split; auto.
  intros a Ha. now apply lookup_app_l.
Qed.

Lemma findAll_rejects_malformed_limit_witness :
  exists w',
    findAll (steady [] 0) str_of User None None None (PStr "ten") ready
    = (Raise (Exn "ValueError" "Invalid limit value: ten"), w')
    /\ trace w' = []
    /\ __pool w' = BoundPool
    /\ forall a, a < 0 -> heap w' !! a = (@nil (list pyval)) !! a.
Proof.
  apply (findAll_rejects_malformed_limit (steady [] 0) str_of User None None
           None (PStr "ten") ready).
  - discriminate.
  - reflexivity.
  - discriminate.
Defined.

(** C10, as stated, fails: a limit that is given but malformed makes
    [findAll] raise before anything is appended; the caller's list, here
    at address [0], is what it was. *)
Lemma findAll_malformed_limit_leaves_args :
  findAll (steady [] 0) str_of User None (Some 0) None (PStr "5")
    (World BoundPool [] [[PInt 1]])
  = (Raise (Exn "ValueError" "Invalid limit value: 5"),
     World BoundPool [] [[PInt 1]]).
Proof. reflexivity. Qed.

(** C10 (amended).  When the caller passes its own list as [args] and a
    limit that is an integer or a tuple of two items, [findAll] appends
    the limit (the two items of the tuple) to that very list: after the
    call, whether the query then succeeds or raises, the list the caller
    holds is longer by one (by two). *)
Theorem findAll_appends_limit_to_callers_args :
  forall (drv : driver) (py_str : pyval -> string) (cls : EntityType)
         (where_ : option string) (a : nat) (orderBy : option string)
         (limit : pyval) (w : world) (xs : list pyval),
    heap w !! a = Some xs ->
    isinstance_int limit = true \/ (exists x y, limit = PTuple [x; y]) ->
    let w' := (findAll drv py_str cls where_ (Some a) orderBy limit w).2 in
    let appended := if isinstance_int limit then [limit] else items_of limit in
    heap w' !! a = Some (xs ++ appended)
    /\ length xs < length (xs ++ appended).
Proof.
  intros drv py_str cls where_ a orderBy limit w xs Hxs Hlimit w' appended.
  assert (Hgiven : is_none limit = false).
  { destruct Hlimit as [H|(x & y & ->)]; [|reflexivity].
    now destruct limit. }
  assert (Hbranch : isinstance_int limit = false ->
                    isinstance_tuple limit && (len limit =? 2)%nat = true).
  { intros Hint. destruct Hlimit as [H|(x & y & ->)];
      [congruence | reflexivity]. }
  assert (Hheap : heap w' = alter (fun l => l ++ appended) a (heap w)).
  { subst w' appended.
    unfold findAll, bind, list_items, list_extend, ret, throw.
    simpl. rewrite Hgiven. simpl.
    destruct (isinstance_int limit) eqn:Hint; simpl.
    - match goal with
      | |- context [select ?d ?q ?v ?s ?w0] =>
          pose proof (select_frame d q v s w0) as [Hh _];
          destruct (select d q v s w0) as [[rs|e] w1]
      end; simpl in *; exact Hh.
    - rewrite (Hbranch eq_refl). simpl.
      match goal with
      | |- context [select ?d ?q ?v ?s ?w0] =>
          pose proof (select_frame d q v s w0) as [Hh _];
          destruct (select d q v s w0) as [[rs|e] w1]
      end; simpl in *; exact Hh. }
  split.
  - rewrite Hheap, list_lookup_alter_eq, Hxs. reflexivity.
  - rewrite length_app. subst appended.
    destruct Hlimit as [->|(x & y & ->)]; simpl; lia.
Qed.

Lemma findAll_appends_limit_to_callers_args_witness :
  heap (findAll (steady [] 0) str_of User (Some "`username`=?") (Some 0)
          None (PTuple [PInt 10; PInt 5])
          (World BoundPool [] [[PStr "sly"]])).2 !! 0
  = Some [PStr "sly"; PInt 10; PInt 5]
  /\ 1 < 3.
Proof.
  apply (findAll_appends_limit_to_callers_args (steady [] 0) str_of User
           (Some "`username`=?") 0 None (PTuple [PInt 10; PInt 5])
           (World BoundPool [] [[PStr "sly"]]) [PStr "sly"]).
  - reflexivity.
  - right. exists (PInt 10), (PInt 5). reflexivity.
Defined.

(** ** Default values *)

(** C4, as stated, fails twice.  A field whose default is [None], as the
    three string fields of [User] have, resolves to [None] and nothing is
    stored: the key is still missing afterwards.  And for a key that is
    also an attribute of the class, [getattr] finds that attribute, never
    the stored value. *)
Lemma getValueOrDefault_not_as_stated :
  (let out := getValueOrDefault (fun _ => None) (fun _ _ => PNone) User ∅
                "email" 0 in
   out = (Ok PNone, ∅, 0) /\ out.1.2 !! "email" = None)
  /\ exists Job,
       ModelMetaclass_new "Job" None Job_attrs = Ok (EntityClass Job)
       /\ __mappings__ Job !! "update"
          = Some (StringField None false (PStr "never") "varchar(100)")
       /\ getValueOrDefault (fun _ => None) (fun _ _ => PNone) Job
            {["update" := PStr "daily"]} "update" 0
          = (Ok (PCallable "Model.update"), {["update" := PStr "daily"]}, 0).
Proof.
  split; [split; reflexivity|].
  eexists. split; [reflexivity|]. split; reflexivity.
Qed.

(** C4 (amended).  For a mapped key that ordinary attribute lookup does
    not find on the class: a stored value other than [None] is returned
    and nothing changes; otherwise a default that is a callable is called,
    a default that is another value but [None] is taken as it is, and in
    both cases the value is stored under the key and returned; a default
    of [None] gives [None] and stores nothing. *)
Theorem getValueOrDefault_resolves :
  forall (inherited : string -> option pyval)
         (produce : string -> nat -> pyval) (cls : EntityType)
         (self : instance) (key : string) (field : Field) (clock : nat),
    class_lookup inherited cls key = None ->
    __mappings__ cls !! key = Some field ->
    let out := getValueOrDefault inherited produce cls self key clock in
    (forall v, self !! key = Some v -> v <> PNone ->
               out = (Ok v, self, clock))
    /\ (self !! key = None \/ self !! key = Some PNone ->
        (forall id, Field.default field = PCallable id ->
                    out = (Ok (produce id clock),
                           <[key := produce id clock]> self, S clock))
        /\ (forall d, Field.default field = d -> d <> PNone ->
                      callable d = false ->
                      out = (Ok d, <[key := d]> self, clock))
        /\ (Field.default field = PNone -> out = (Ok PNone, self, clock))).
Proof.
  intros inherited produce cls self key field clock Hcls Hmap out.
  subst out. unfold getValueOrDefault, getattr_or_none.
  rewrite Hcls, Hmap. split.
  - intros v Hv Hnn. rewrite Hv.
    destruct v; try reflexivity. now destruct Hnn.
  - intros Hmissing.
    assert (Hnone : is_none match self !! key with
                            | Some v => v
                            | None => PNone
                            end = true)
      by (destruct Hmissing as [-> | ->]; reflexivity).
    rewrite Hnone. repeat split.
    + intros id ->. reflexivity.
    + intros d -> Hd Hcall. destruct d; try reflexivity;
        [now destruct Hd | discriminate Hcall].
    + intros ->. simpl. destruct Hmissing as [-> | ->]; reflexivity.
Qed.

Lemma getValueOrDefault_resolves_witness :
  getValueOrDefault (fun _ => None) (fun _ n => PInt (Z.of_nat n)) User
    {["username" := PStr "sly"]} "id" 7
  = (Ok (PInt 0), <["id" := PInt 0]> {["username" := PStr "sly"]}, 7).
Proof.
  destruct (getValueOrDefault_resolves (fun _ => None)
              (fun _ n => PInt (Z.of_nat n)) User
              {["username" := PStr "sly"]} "id"
              (IntegerField (Some "id") true (PInt 0)) 7
              eq_refl eq_refl) as [_ Hdefault].
  destruct (Hdefault (or_introl eq_refl)) as (_ & Hliteral & _).
  apply (Hliteral (PInt 0) eq_refl); [discriminate | reflexivity].
Defined.

(** ** The metaclass *)

Lemma raised_StandardError (msg : string) :
  raised "StandardError" msg = NameError "StandardError".
Proof. reflexivity. Qed.

(** What the scanning loop leaves in its three variables. *)
Lemma scan_inv (items : list (string * attr)) :
  forall st st',
    scan items st = Ok st' ->
    fields st' = fields st ++ other_fields items
    /\ (forall k f, mappings st' !! k = Some f ->
                    mappings st !! k = Some f \/ In (k, AField f) items)
    /\ (forall k, is_Some (mappings st !! k)
                  \/ (exists f, In (k, AField f) items) ->
                  is_Some (mappings st' !! k))
    /\ (forall k, primaryKey st' = Some k ->
                  primaryKey st = Some k \/ In k (primary_keys items)).
Proof.
  induction items as [|[k0 v0] rest IH]; intros st st' Hscan.
  - injection Hscan as <-. unfold other_fields. simpl.
    rewrite app_nil_r. repeat split; auto.
    intros k [H|[f []]]. exact H.
  - simpl in Hscan. destruct v0 as [f0|v0].
    + destruct (Field.primary_key f0) eqn:Hpk.
      * destruct (truthy_str (primaryKey st)); [discriminate|].
        destruct (IH _ _ Hscan) as (Hf & Hm & Hd & Hp). simpl in *.
        unfold other_fields, primary_keys, is_other_field, is_key_field.
        simpl. rewrite Hpk. simpl.
        split; [exact Hf|]. split; [|split].
        -- intros k f Hk. destruct (Hm k f Hk) as [H|H]; [|auto].
           destruct (decide (k0 = k)) as [->|Hne].
           ++ rewrite lookup_insert_eq in H. injection H as ->. auto.
           ++ rewrite lookup_insert_ne in H by exact Hne. auto.
        -- intros k Hk. apply Hd.
           destruct (decide (k0 = k)) as [->|Hne].
           ++ left. rewrite lookup_insert_eq. eauto.
           ++ rewrite lookup_insert_ne by exact Hne.
              destruct Hk as [H|[f [H|H]]]; eauto.
              injection H as -> _. now destruct Hne.
        -- intros k Hk. destruct (Hp k Hk) as [H|H]; [|auto].
           injection H as ->. auto.
      * destruct (IH _ _ Hscan) as (Hf & Hm & Hd & Hp). simpl in *.
        unfold other_fields, primary_keys, is_other_field, is_key_field.
        simpl. rewrite Hpk. simpl.
        split; [now rewrite Hf, <- app_assoc|]. split; [|split].
        -- intros k f Hk. destruct (Hm k f Hk) as [H|H]; [|auto].
           destruct (decide (k0 = k)) as [->|Hne].
           ++ rewrite lookup_insert_eq in H. injection H as ->. auto.
           ++ rewrite lookup_insert_ne in H by exact Hne. auto.
        -- intros k Hk. apply Hd.
           destruct (decide (k0 = k)) as [->|Hne].
           ++ left. rewrite lookup_insert_eq. eauto.
           ++ rewrite lookup_insert_ne by exact Hne.
              destruct Hk as [H|[f [H|H]]]; eauto.
              injection H as -> _. now destruct Hne.
        -- exact Hp.
    + destruct (IH _ _ Hscan) as (Hf & Hm & Hd & Hp).
      unfold other_fields, primary_keys, is_other_field, is_key_field.
      simpl. split; [exact Hf|]. split; [|split].
      * intros k f Hk. destruct (Hm k f Hk); auto.
      * intros k Hk. apply Hd. destruct Hk as [H|[f [H|H]]]; eauto.
        discriminate H.
      * exact Hp.
Qed.

(** Keys the loop does not meet keep their entry. *)
Lemma scan_untouched (items : list (string * attr)) (k : string) :
  forall st st',
    scan items st = Ok st' ->
    ~ In k (map fst items) ->
    mappings st' !! k = mappings st !! k.
Proof.
  induction items as [|[k0 v0] rest IH]; intros st st' Hscan Hk.
  - now injection Hscan as <-.
  - simpl in Hscan, Hk.
    assert (Hne : k0 <> k) by tauto.
    assert (Hrest : ~ In k (map fst rest)) by tauto.
    destruct v0 as [f0|v0]; [|now apply IH].
    destruct (Field.primary_key f0).
    + destruct (truthy_str (primaryKey st)); [discriminate|].
      rewrite (IH _ _ Hscan Hrest). simpl.
      now rewrite lookup_insert_ne.
    + rewrite (IH _ _ Hscan Hrest). simpl.
      now rewrite lookup_insert_ne.
Qed.

(** In a class body, where no key occurs twice, every declared field is
    found in the mapping under its key. *)
Lemma scan_lookup (items : list (string * attr)) :
  forall st st',
    NoDup (map fst items) ->
    scan items st = Ok st' ->
    forall k f, In (k, AField f) items -> mappings st' !! k = Some f.
Proof.
  induction items as [|[k0 v0] rest IH]; intros st st' Hnd Hscan k f Hin.
  - destruct Hin.
  - simpl in Hnd. apply NoDup_cons in Hnd as [Hk0 Hnd].
    assert (Hk0' : ~ In k0 (map fst rest))
      by (intros H; apply Hk0; now apply list_elem_of_In).
    simpl in Hscan. destruct Hin as [Heq|Hin].
    + injection Heq as -> ->.
      destruct (Field.primary_key f).
      * destruct (truthy_str (primaryKey st)); [discriminate|].
        rewrite (scan_untouched _ _ _ _ Hscan Hk0'). simpl.
        apply lookup_insert_eq.
      * rewrite (scan_untouched _ _ _ _ Hscan Hk0'). simpl.
        apply lookup_insert_eq.
    + destruct v0 as [f0|v0]; [|now apply (IH _ _ Hnd Hscan)].
      destruct (Field.primary_key f0).
      * destruct (truthy_str (primaryKey st)); [discriminate|].
        now apply (IH _ _ Hnd Hscan).
      * now apply (IH _ _ Hnd Hscan).
Qed.

(** With keys that are not empty (as the names bound in a class body
    are), the loop completes exactly when it meets at most one field
    flagged as primary key; it stops at the second one. *)
Lemma scan_outcome (items : list (string * attr)) :
  forall st,
    (forall k, In k (primary_keys items) -> k <> "") ->
    let seen := if truthy_str (primaryKey st) then 1 else 0 in
    match scan items st with
    | Ok st' =>
        length (primary_keys items) + seen <= 1
        /\ primaryKey st' = match primary_keys items with
                            | [] => primaryKey st
                            | k :: _ => Some k
                            end
    | Raise e =>
        2 <= length (primary_keys items) + seen
        /\ e = NameError "StandardError"
    end.
Proof.
  induction items as [|[k0 v0] rest IH]; intros st Hkeys seen.
  - simpl. subst seen. split; [destruct (truthy_str _); lia | reflexivity].
  - simpl. destruct v0 as [f0|v0].
    + unfold primary_keys, is_key_field in *. simpl in *.
      destruct (Field.primary_key f0) eqn:Hpk; simpl in *.
      * assert (Hk0 : truthy_str (Some k0) = true).
        { simpl. destruct (String.eqb_spec k0 ""); [|reflexivity].
          now destruct (Hkeys k0 (or_introl eq_refl)). }
        subst seen. destruct (truthy_str (primaryKey st)) eqn:Hseen.
        -- rewrite raised_StandardError. split; [lia | reflexivity].
        -- specialize (IH (Scan (<[k0:=f0]> (mappings st)) (fields st)
                             (Some k0))
                          (fun k H => Hkeys k (or_intror H))).
           cbn [primaryKey] in IH. rewrite Hk0 in IH.
           destruct (scan rest _) as [st'|e].
           ++ destruct IH as [Hlen Hpk']. split; [lia|].
              destruct (map fst (List.filter _ rest)); [exact Hpk'|].
              simpl in Hlen. lia.
           ++ destruct IH as [Hlen ->]. split; [lia | reflexivity].
      * apply (IH (Scan (<[k0:=f0]> (mappings st)) (fields st ++ [k0])
                     (primaryKey st)) Hkeys).
    + apply (IH st Hkeys).
Qed.

Lemma update_column_cases (m : gmap string Field) (f c : string) :
  update_column m f = Ok c ->
  c = f \/ exists fld, m !! f = Some fld /\ Field.name fld = Some c.
Proof.
  unfold update_column. destruct (m !! f) as [fld|] eqn:Hm; [|discriminate].
  destruct (Field.name fld) as [n|] eqn:Hn; [|intros [= <-]; auto].
  destruct (truthy_str (Some n)); intros [= <-]; eauto.
Qed.

(** The set clauses are built for every field found in the mapping. *)
Lemma set_clauses_ok (m : gmap string Field) (fs : list string) :
  (forall f, In f fs -> is_Some (m !! f)) ->
  exists clauses, map_result (set_clause m) fs = Ok clauses.
Proof.
  induction fs as [|f fs IH]; intros Hdom; [now exists []|].
  destruct IH as [clauses IH]; [intros; apply Hdom; now right|].
  destruct (Hdom f (or_introl eq_refl)) as [fld Hfld].
  simpl. unfold set_clause at 1, update_column. rewrite Hfld, IH.
  destruct (Field.name fld) as [n|]; [destruct (truthy_str (Some n))|];
    eauto.
Qed.

Lemma map_result_spec {A B} (g : A -> result B) (l : list A) (bs : list B) :
  map_result g l = Ok bs -> Forall2 (fun a b => g a = Ok b) l bs.
Proof.
  revert bs. induction l as [|a l IH]; intros bs H; simpl in H.
  - injection H as <-. constructor.
  - destruct (g a) as [b|] eqn:Hg; [|discriminate].
    destruct (map_result g l) as [bs'|]; [|discriminate].
    injection H as <-. constructor; auto.
Qed.

Lemma primary_keys_declared attrs k :
  In k (primary_keys attrs) -> exists f, In (k, AField f) attrs.
Proof.
  unfold primary_keys. rewrite in_map_iff.
  intros ([k' v] & <- & Hin). apply filter_In in Hin as [Hin Hflag].
  destruct v as [f|v]; [|discriminate]. eauto.
Qed.

Lemma other_fields_declared attrs k :
  In k (other_fields attrs) ->
  exists f, In (k, AField f) attrs /\ Field.primary_key f = false.
Proof.
  unfold other_fields. rewrite in_map_iff.
  intros ([k' v] & <- & Hin). apply filter_In in Hin as [Hin Hflag].
  destruct v as [f|v]; [|discriminate].
  exists f. split; [exact Hin|].
  unfold is_other_field in Hflag. simpl in Hflag.
  now destruct (Field.primary_key f).
Qed.

(** What a successful declaration stores, in terms of the variables of
    [__new__]. *)
Lemma ModelMetaclass_new_entity name table attrs cls :
  ModelMetaclass_new name table attrs = Ok (EntityClass cls) ->
  exists st clauses,
    scan attrs (Scan ∅ [] None) = Ok st
    /\ primaryKey st = Some (__primary_key__ cls)
    /\ map_result (set_clause (mappings st)) (fields st) = Ok clauses
    /\ __mappings__ cls = mappings st
    /\ __fields__ cls = fields st
    /\ __select__ cls
       = "select `" +:+ __primary_key__ cls +:+ "`, "
         +:+ join ", " (map escape (fields st))
         +:+ " from `" +:+ __table__ cls +:+ "`"
    /\ __insert__ cls
       = "insert into `" +:+ __table__ cls +:+ "` ("
         +:+ join ", " (map escape (fields st)) +:+ ", `"
         +:+ __primary_key__ cls +:+ "`) values ("
         +:+ create_args_string (length (fields st) + 1) +:+ ")"
    /\ __update__ cls
       = "update `" +:+ __table__ cls +:+ "` set " +:+ join ", " clauses
         +:+ " where `" +:+ __primary_key__ cls +:+ "`=?".
Proof.
  unfold ModelMetaclass_new.
  destruct (String.eqb name "Model"); [discriminate|].
  destruct (scan attrs _) as [st|] eqn:Hscan; [|discriminate].
  destruct (primaryKey st) as [pk|] eqn:Hpk; [|discriminate].
  destruct (truthy_str (Some pk)); [|discriminate]. simpl.
  destruct (map_result _ _) as [clauses|] eqn:Hclauses; [|discriminate].
  intros [= <-]. simpl. rewrite length_map.
  exists st, clauses. repeat split; auto.
Qed.

(** Every failure of a declaration is the [NameError] on
    [StandardError]; with keys that are not empty a declaration goes
    through exactly when one field is flagged as primary key. *)
Lemma declaration_outcome name table attrs :
  String.eqb name "Model" = false ->
  (forall k, In k (primary_keys attrs) -> k <> "") ->
  match ModelMetaclass_new name table attrs with
  | Ok (EntityClass cls) => primary_keys attrs = [__primary_key__ cls]
  | Ok (PlainClass _ _) => False
  | Raise e =>
      length (primary_keys attrs) <> 1 /\ e = NameError "StandardError"
  end.
Proof.
  intros Hname Hkeys. unfold ModelMetaclass_new. rewrite Hname.
  pose proof (scan_outcome attrs (Scan ∅ [] None) Hkeys) as Hout.
  pose proof (scan_inv attrs (Scan ∅ [] None)) as Hinv.
  simpl in Hout.
  destruct (scan attrs _) as [st|e].
  - destruct Hout as [Hlen Hpk].
    destruct (Hinv st eq_refl) as (Hf & _ & Hdom & _).
    destruct (primary_keys attrs) as [|k [|k' ks]] eqn:Hks;
      simpl in Hlen; try lia; rewrite Hpk; simpl.
    + rewrite raised_StandardError. split; [lia | reflexivity].
    + assert (Hk : k <> "") by (apply Hkeys; now left).
      destruct (String.eqb_spec k ""); [contradiction|]. simpl.
      destruct (set_clauses_ok (mappings st) (fields st)) as [cl ->];
        [|reflexivity].
      intros f Hin. apply Hdom. right.
      rewrite Hf in Hin. simpl in Hin.
      destruct (other_fields_declared attrs f Hin) as (fld & H & _). eauto.
  - destruct Hout as [Hlen ->]. split; [lia | reflexivity].
Qed.

(** C1.  A declaration with no primary-key field, and one with two, both
    fail, but not with the error the code names: [StandardError] is not
    bound in Python 3, so evaluating [raise StandardError(...)] raises
    [NameError], whose message names neither the missing key nor the
    second primary-key field ([uid] below). *)
Theorem declaration_errors_are_NameError :
  ModelMetaclass_new "Blog" None
    [ ("title", AField (StringField None false PNone "varchar(100)")) ]
  = Raise (Exn "NameError" "name 'StandardError' is not defined")
  /\ ModelMetaclass_new "Blog" None
       [ ("id", AField (IntegerField None true (PInt 0)));
         ("uid", AField (IntegerField None true (PInt 0)));
         ("title", AField (StringField None false PNone "varchar(100)")) ]
     = Raise (Exn "NameError" "name 'StandardError' is not defined").
Proof. split; reflexivity. Qed.

Lemma count_qmark_escape (f : string) :
  count_qmark (escape f) = count_qmark f.
Proof.
  unfold escape. rewrite !count_qmark_app. simpl. lia.
Qed.

Lemma list_sum_zero {A} (g : A -> nat) (l : list A) :
  (forall a, In a l -> g a = 0) -> list_sum (map g l) = 0.
Proof.
  induction l as [|a l IH]; intros H; [reflexivity|].
  simpl. rewrite (H a (or_introl eq_refl)), IH; [reflexivity|].
  intros b Hb. apply H. now right.
Qed.

(** Each set clause brings one marker, as long as the column it names
    has none. *)
Lemma set_clauses_count (m : gmap string Field) (fs clauses : list string) :
  map_result (set_clause m) fs = Ok clauses ->
  (forall f c, In f fs -> update_column m f = Ok c -> count_qmark c = 0) ->
  list_sum (map count_qmark clauses) = length fs.
Proof.
  intros Hmap. apply map_result_spec in Hmap.
  induction Hmap as [|f clause fs clauses Hclause _ IH]; intros Hfree;
    [reflexivity|].
  simpl. rewrite IH by (intros f' c' Hin; apply Hfree; now right).
  unfold set_clause in Hclause.
  destruct (update_column m f) as [c|] eqn:Hc; [|discriminate].
  injection Hclause as <-.
  rewrite count_qmark_app, count_qmark_escape.
  rewrite (Hfree f c (or_introl eq_refl) Hc). reflexivity.
Qed.

(** C2, as stated, fails: a ['?'] in the table name is one more marker in
    every template.  Here one field besides the key, and three markers
    where two are claimed. *)
Lemma placeholder_count_with_marker_in_table_name :
  exists cls,
    ModelMetaclass_new "Faq" (Some "faq?")
      [ ("id", AField (IntegerField None true (PInt 0)));
        ("title", AField (StringField None false PNone "varchar(100)")) ]
    = Ok (EntityClass cls)
    /\ length (__fields__ cls) = 1
    /\ __insert__ cls = "insert into `faq?` (`title`, `id`) values (?, ?)"
    /\ count_qmark (__insert__ cls) = 3
    /\ __update__ cls = "update `faq?` set `title`=? where `id`=?"
    /\ count_qmark (__update__ cls) = 3.
Proof. eexists. repeat split; reflexivity. Qed.

(** C2 (amended).  For an entity type whose table name, attribute keys
    and declared field names contain no ['?'], with [N] mapped fields
    besides the primary key: the insert template has [N + 1] markers and
    the update template has [N + 1] markers. *)
Theorem insert_update_placeholder_counts :
  forall (name : string) (table : option string)
         (attrs : list (string * attr)) (cls : EntityType),
    ModelMetaclass_new name table attrs = Ok (EntityClass cls) ->
    count_qmark (__table__ cls) = 0 ->
    (forall k f, In (k, AField f) attrs ->
                 count_qmark k = 0
                 /\ forall n, Field.name f = Some n -> count_qmark n = 0) ->
    let N := length (other_fields attrs) in
    length (__fields__ cls) = N
    /\ count_qmark (__insert__ cls) = N + 1
    /\ count_qmark (__update__ cls) = N + 1.
Proof.
  intros name table attrs cls Hnew Htable Hfree N.
  destruct (ModelMetaclass_new_entity _ _ _ _ Hnew)
    as (st & clauses & Hscan & Hpk & Hclauses & Hmap & Hfields & _ & Hins
        & Hupd).
  destruct (scan_inv attrs _ _ Hscan) as (Hf & Hsub & _ & Hkey).
  simpl in Hf.
  assert (Hpkfree : count_qmark (__primary_key__ cls) = 0).
  { destruct (Hkey _ Hpk) as [H|H]; [discriminate H|].
    destruct (primary_keys_declared _ _ H) as [f Hin].
    exact (proj1 (Hfree _ _ Hin)). }
  assert (Hfsfree : forall f, In f (fields st) -> count_qmark f = 0).
  { intros f Hin. rewrite Hf in Hin.
    destruct (other_fields_declared _ _ Hin) as (fld & Hfld & _).
    exact (proj1 (Hfree _ _ Hfld)). }
  assert (Hlen : length (fields st) = N) by (subst N; now rewrite Hf).
  split; [now rewrite Hfields|]. split.
  - rewrite Hins, !count_qmark_app, count_qmark_join, length_map.
    rewrite count_qmark_create_args_string, Htable, Hpkfree, map_map.
    rewrite list_sum_zero
      by (intros f Hin; rewrite count_qmark_escape; now apply Hfsfree).
    simpl. lia.
  - rewrite Hupd, !count_qmark_app, count_qmark_join.
    rewrite (set_clauses_count _ _ _ Hclauses), Htable, Hpkfree.
    + simpl. lia.
    + intros f c Hin Hc.
      destruct (update_column_cases _ _ _ Hc) as [->|(fld & Hfld & Hn)];
        [now apply Hfsfree|].
      destruct (Hsub _ _ Hfld) as [H|H];
        [cbn [mappings] in H; now rewrite lookup_empty in H|].
      exact (proj2 (Hfree _ _ H) _ Hn).
Qed.

Lemma insert_update_placeholder_counts_witness :
  length (__fields__ User) = 3
  /\ count_qmark (__insert__ User) = 3 + 1
  /\ count_qmark (__update__ User) = 3 + 1.
Proof.
  apply (insert_update_placeholder_counts "User" None User_attrs User
           User_declared eq_refl).
  intros k f Hin. simpl in Hin.
  repeat (destruct Hin as [[= <- <-]|Hin];
          [split; [reflexivity | intros n [= <-]; reflexivity]|]).
  destruct Hin.
Defined.

Lemma length_append (a b : string) :
  String.length (a +:+ b) = String.length a + String.length b.
Proof. induction a as [|c a IH]; simpl; [reflexivity | now rewrite IH]. Qed.

Lemma append_inj_r (a b tail : string) :
  a +:+ tail = b +:+ tail -> a = b.
Proof.
  intros H.
  assert (Hlen : String.length a = String.length b).
  { apply (f_equal String.length) in H.
    rewrite !length_append in H. lia. }
  revert b H Hlen. induction a as [|c a IH]; intros [|d b] H Hlen;
    try discriminate Hlen; [reflexivity|].
  simpl in H. injection H as -> H. f_equal. apply IH; [exact H|].
  simpl in Hlen. lia.
Qed.

Lemma escape_inj (a b : string) : escape a = escape b -> a = b.
Proof.
  unfold escape. intros H. injection H as H.
  apply (append_inj_r a b "`"). exact H.
Qed.

(** C9, as stated, fails for the primary key: its declared name is never
    used.  With [id] declared under the name [user_id] the update
    template still filters on [id], the column the select and insert
    templates name too, while the other field is updated under its
    declared name.  A declared name that is the empty string counts as
    absent. *)
Lemma update_template_keeps_primary_key_column :
  (exists cls,
     ModelMetaclass_new "User" None
       [ ("id", AField (IntegerField (Some "user_id") true (PInt 0)));
         ("nick", AField (StringField (Some "nickname") false PNone
                            "varchar(100)")) ]
     = Ok (EntityClass cls)
     /\ __select__ cls = "select `id`, `nick` from `User`"
     /\ __insert__ cls = "insert into `User` (`nick`, `id`) values (?, ?)"
     /\ __update__ cls = "update `User` set `nickname`=? where `id`=?")
  /\ (exists cls,
        ModelMetaclass_new "User" None
          [ ("id", AField (IntegerField None true (PInt 0)));
            ("nick", AField (StringField (Some "") false PNone
                               "varchar(100)")) ]
        = Ok (EntityClass cls)
        /\ __update__ cls = "update `User` set `nick`=? where `id`=?").
Proof. split; eexists; repeat split; reflexivity. Qed.

(** C9 (amended).  For every entity type: the select and the insert
    template list the primary key and the other fields by attribute key;
    the update template filters on the attribute key of the primary key
    and sets, for each other field, the column of its declared name when
    that is present and not empty, the attribute key otherwise.  Hence
    for a field other than the primary key whose declared name is not
    empty and differs from its key, the update template sets another
    column than the one the select and insert templates name. *)
Theorem templates_reference_columns :
  forall (name : string) (table : option string)
         (attrs : list (string * attr)) (cls : EntityType),
    NoDup (map fst attrs) ->
    ModelMetaclass_new name table attrs = Ok (EntityClass cls) ->
    let pk := __primary_key__ cls in
    let t := __table__ cls in
    let fs := other_fields attrs in
    In pk (primary_keys attrs)
    /\ __fields__ cls = fs
    /\ __select__ cls
       = "select `" +:+ pk +:+ "`, " +:+ join ", " (map escape fs)
         +:+ " from `" +:+ t +:+ "`"
    /\ __insert__ cls
       = "insert into `" +:+ t +:+ "` (" +:+ join ", " (map escape fs)
         +:+ ", `" +:+ pk +:+ "`) values ("
         +:+ create_args_string (length fs + 1) +:+ ")"
    /\ (exists clauses,
          map_result (set_clause (__mappings__ cls)) fs = Ok clauses
          /\ __update__ cls
             = "update `" +:+ t +:+ "` set " +:+ join ", " clauses
               +:+ " where `" +:+ pk +:+ "`=?")
    /\ (forall k f,
          In (k, AField f) attrs -> Field.primary_key f = false ->
          set_clause (__mappings__ cls) k
          = Ok (escape (declared_column k f) +:+ "=?"))
    /\ (forall k f n,
          In (k, AField f) attrs -> Field.primary_key f = false ->
          Field.name f = Some n -> n <> "" -> n <> k ->
          set_clause (__mappings__ cls) k = Ok (escape n +:+ "=?")
          /\ escape n <> escape k).
Proof.
  intros name table attrs cls Hnd Hnew pk t fs.
  destruct (ModelMetaclass_new_entity _ _ _ _ Hnew)
    as (st & clauses & Hscan & Hpk & Hclauses & Hmap & Hfields & Hsel & Hins
        & Hupd).
  destruct (scan_inv attrs _ _ Hscan) as (Hf & _ & _ & Hkey).
  simpl in Hf.
  assert (Hset : forall k f,
             In (k, AField f) attrs ->
             set_clause (__mappings__ cls) k
             = Ok (escape (declared_column k f) +:+ "=?")).
  { intros k f Hin. unfold set_clause, update_column, declared_column.
    rewrite Hmap, (scan_lookup _ _ _ Hnd Hscan k f Hin).
    destruct (Field.name f) as [n|]; [|reflexivity].
    simpl. now destruct (String.eqb n ""). }
  subst pk t fs. rewrite <- Hf.
  split; [destruct (Hkey _ Hpk) as [H|H]; [discriminate H | exact H]|].
  split; [exact Hfields|]. split; [exact Hsel|]. split; [exact Hins|].
  split; [exists clauses; rewrite Hmap; auto|].
  split; [intros k f Hin _; now apply Hset|].
  intros k f n Hin _ Hname Hn Hk. split.
  - rewrite (Hset k f Hin). unfold declared_column. rewrite Hname.
    destruct (String.eqb_spec n ""); [contradiction | reflexivity].
  - intros H. apply Hk. now apply escape_inj.
Qed.

Lemma templates_reference_columns_witness :
  set_clause
    (<["nick" := StringField (Some "nickname") false PNone "varchar(100)"]>
       (<["id" := IntegerField (Some "user_id") true (PInt 0)]> ∅))
    "nick"
  = Ok "`nickname`=?"
  /\ escape "nickname" <> escape "nick".
Proof.
  destruct (templates_reference_columns "User" None
              [ ("id", AField (IntegerField (Some "user_id") true (PInt 0)));
                ("nick", AField (StringField (Some "nickname") false PNone
                                   "varchar(100)")) ]
              {| __name__ := "User";
                 __mappings__ :=
                   <["nick" := StringField (Some "nickname") false PNone
                                 "varchar(100)"]>
                     (<["id" := IntegerField (Some "user_id") true (PInt 0)]>
                        ∅);
                 __table__ := "User";
                 __primary_key__ := "id";
                 __fields__ := ["nick"];
                 __select__ := "select `id`, `nick` from `User`";
                 __insert__ :=
                   "insert into `User` (`nick`, `id`) values (?, ?)";
                 __update__ :=
                   "update `User` set `nickname`=? where `id`=?";
                 __delete__ := "delete from `User` where `id`=?";
                 namespace := [] |})
    as (_ & _ & _ & _ & _ & _ & Hdiff).
  - apply (bool_decide_unpack _). reflexivity.
  - reflexivity.
  - apply (Hdiff "nick"
             (StringField (Some "nickname") false PNone "varchar(100)")
             "nickname").
    + right. left. reflexivity.
    + reflexivity.
    + reflexivity.
    + discriminate.
    + discriminate.
Defined.

(** * Further properties *)

(** ** Pool lifecycle *)

(** X1.  [create_pool] without [user], [password] or [db] raises
    [KeyError] on the first of them that is missing, before the driver is
    called and without binding the pool. *)
Theorem create_pool_requires_credentials :
  forall (drv : driver) (kw : gmap string pyval) (w : world),
    kw !! "user" = None \/ kw !! "password" = None \/ kw !! "db" = None ->
    create_pool drv kw w = (Raise (KeyError (first_missing kw)), w).
Proof.
  intros drv kw w Hmissing.
  unfold create_pool, kw_item, first_missing, bind, throw, ret.
  destruct (kw !! "user"); [|reflexivity].
  destruct (kw !! "password"); [|reflexivity].
  destruct (kw !! "db"); [|reflexivity].
  destruct Hmissing as [H|[H|H]]; discriminate H.
Qed.

Lemma create_pool_requires_credentials_witness :
  create_pool (steady [] 0) {["user" := PStr "root"; "db" := PStr "test"]}
    imported
  = (Raise (Exn "KeyError" "'password'"), imported).
Proof.
  exact (create_pool_requires_credentials (steady [] 0)
           {["user" := PStr "root"; "db" := PStr "test"]} imported
           (or_intror (or_introl eq_refl))).
Defined.

(** X2.  [create_pool] binds [__pool] only when the driver call returns.
    When it raises, whatever the reason, the binding is what it was; on a
    fresh module a later [select] or [execute] therefore still fails on
    the unbound name, without reaching the driver. *)
Theorem create_pool_failure_leaves_pool_unbound :
  forall (drv : driver) (kw : gmap string pyval) (w w' : world) (e : exn),
    create_pool drv kw w = (Raise e, w') ->
    __pool w' = __pool w
    /\ heap w' = heap w
    /\ (__pool w = Unbound ->
        (forall sql args size,
            select drv sql args size w' = (Raise (NameError "__pool"), w'))
        /\ (forall sql args autocommit,
               execute drv sql args autocommit w'
               = (Raise (NameError "__pool"), w'))).
Proof.
  intros drv kw w w' e Hfailed.
  assert (Hsame : __pool w' = __pool w /\ heap w' = heap w).
  { revert Hfailed. unfold create_pool, kw_item, call, bind, ret, throw.
    destruct (kw !! "user"); [|now intros [= <- <-]].
    destruct (kw !! "password"); [|now intros [= <- <-]].
    destruct (kw !! "db"); [|now intros [= <- <-]].
    simpl. case_calls; [|discriminate].
    now intros [= <- <-]. }
  destruct Hsame as [Hpool Hheap].
  split; [exact Hpool|]. split; [exact Hheap|].
  intros Hunbound. rewrite Hunbound in Hpool.
  split; intros; unfold_monad; now rewrite Hpool.
Qed.

Lemma create_pool_failure_leaves_pool_unbound_witness :
  select access_denied "select 1" None None
    (World Unbound
       [ECreatePool
          (default_pool_kwargs (PStr "root") (PStr "x") (PStr "test"))] [])
  = (Raise (NameError "__pool"),
     World Unbound
       [ECreatePool
          (default_pool_kwargs (PStr "root") (PStr "x") (PStr "test"))] []).
Proof.
  assert (Hfailed :
            create_pool access_denied
              {["user" := PStr "root"; "password" := PStr "x";
                "db" := PStr "test"]} imported
            = (Raise (Exn "OperationalError" "Access denied"),
               World Unbound
                 [ECreatePool
                    (default_pool_kwargs (PStr "root") (PStr "x")
                       (PStr "test"))] []))
    by (vm_compute; reflexivity).
  destruct (create_pool_failure_leaves_pool_unbound _ _ _ _ _ Hfailed)
    as (_ & _ & Hlater).
  exact (proj1 (Hlater eq_refl) "select 1" None None).
Defined.

(** X3.  [destroy_pool] never rebinds [__pool]: once created the pool
    stays bound after it was closed.  A second [destroy_pool] closes and
    waits again, and a later [select] still goes to the closed pool for a
    connection. *)
Theorem destroy_pool_keeps_pool_bound :
  forall (drv : driver) (w : world),
    __pool (destroy_pool drv w).2 = __pool w
    /\ heap (destroy_pool drv w).2 = heap w
    /\ (__pool w = BoundPool ->
        (forall sql args size,
            exists rest,
              trace (select drv sql args size (destroy_pool drv w).2).2
              = trace (destroy_pool drv w).2 ++ EAcquire :: rest)
        /\ let calls :=
             [EPoolClose; EPoolWaitClosed; EPoolClose; EPoolWaitClosed] in
           ((forall i ev, calls !! i = Some ev ->
                          fails drv (trace w ++ take i calls) ev = None) ->
            (destroy_pool drv ;;; destroy_pool drv) w
            = (Ok tt, World BoundPool (trace w ++ calls) (heap w)))).
Proof.
  intros drv w.
  assert (Hsame : __pool (destroy_pool drv w).2 = __pool w
                  /\ heap (destroy_pool drv w).2 = heap w).
  { unfold_monad. destruct (__pool w) eqn:Hp; simpl; auto.
    case_calls; auto. }
  destruct Hsame as [Hpool Hheap].
  split; [exact Hpool|]. split; [exact Hheap|].
  intros Hbound. rewrite Hbound in Hpool. split.
  - intros sql args size.
    destruct (destroy_pool drv w) as [r w1]. simpl in *.
    unfold_monad. rewrite Hpool. simpl.
    destruct size as [n|]; [destruct (truthy_int (Some n))|];
      case_calls; rewrite <- ?app_assoc; simpl; eauto.
  - intros calls Hok.
    pose proof (Hok 0 _ eq_refl) as H0. pose proof (Hok 1 _ eq_refl) as H1.
    pose proof (Hok 2 _ eq_refl) as H2. pose proof (Hok 3 _ eq_refl) as H3.
    simpl in H0, H1, H2, H3. rewrite app_nil_r in H0.
    unfold_monad. rewrite Hbound. simpl.
    advance H0. advance H1. rewrite ?Hbound. simpl.
    advance H2. advance H3.
    rewrite <- ?app_assoc. simpl. now rewrite ?Hbound.
Qed.

Lemma destroy_pool_keeps_pool_bound_witness :
  (destroy_pool (steady [] 0) ;;; destroy_pool (steady [] 0)) ready
  = (Ok tt,
     World BoundPool
       [EPoolClose; EPoolWaitClosed; EPoolClose; EPoolWaitClosed] []).
Proof.
  destruct (destroy_pool_keeps_pool_bound (steady [] 0) ready)
    as (_ & _ & Hbound).
  destruct (Hbound eq_refl) as [_ Htwice].
  apply Htwice. intros i ev _. reflexivity.
Defined.

(** ** The executor *)

(** X4.  Without a pool object, [select] and [execute] raise at
    [__pool.get()], [NameError] while the name is unbound and
    [AttributeError] when it is bound to [None], and make no call on the
    driver. *)
Theorem executor_needs_pool :
  forall (drv : driver) (w : world),
    __pool w <> BoundPool ->
    (forall sql args size,
        select drv sql args size w = (Raise (no_pool_error (__pool w)), w))
    /\ (forall sql args autocommit,
           execute drv sql args autocommit w
           = (Raise (no_pool_error (__pool w)), w)).
Proof.
  intros drv w Hp.
  split; intros; unfold_monad; destruct (__pool w); simpl;
    try reflexivity; now destruct Hp.
Qed.

Lemma executor_needs_pool_witness :
  execute (steady [] 1) "delete from `t`" [] true imported
  = (Raise (Exn "NameError" "name '__pool' is not defined"), imported).
Proof.
  destruct (executor_needs_pool (steady [] 1) imported) as [_ Hexecute].
  - discriminate.
  - exact (Hexecute "delete from `t`" [] true).
Defined.

(** Names the calls made, once the trace is an explicit list, and leaves
    the facts about them to be closed by computation. *)
Ltac name_calls :=
  rewrite <- ?app_assoc; simpl; eexists; (split; [reflexivity|]); simpl.

Ltac by_cases_on_calls :=
  repeat split; intros; simpl in *;
  try discriminate; try congruence; try lia; auto.

(** X5.  A connection taken from the pool is given back on every path.
    In [select] and in [execute], with or without autocommit and whatever
    the driver does afterwards, a connection that was acquired is released
    in the last call made, and exactly once; when acquiring itself fails,
    nothing else is called and that exception is raised. *)
Theorem connection_is_always_released :
  forall (drv : driver) (w : world),
    __pool w = BoundPool ->
    (forall sql args size,
        exists new,
          trace (select drv sql args size w).2 = trace w ++ new
          /\ head new = Some EAcquire
          /\ count_calls is_acquire new = 1
          /\ (fails drv (trace w) EAcquire = None ->
              last new = Some ERelease /\ count_calls is_release new = 1)
          /\ (forall e, fails drv (trace w) EAcquire = Some e ->
                        new = [EAcquire]
                        /\ (select drv sql args size w).1 = Raise e))
    /\ (forall sql args autocommit,
           exists new,
             trace (execute drv sql args autocommit w).2 = trace w ++ new
             /\ head new = Some EAcquire
             /\ count_calls is_acquire new = 1
             /\ (fails drv (trace w) EAcquire = None ->
                 last new = Some ERelease /\ count_calls is_release new = 1)
             /\ (forall e, fails drv (trace w) EAcquire = Some e ->
                           new = [EAcquire]
                           /\ (execute drv sql args autocommit w).1
                              = Raise e)).
Proof.
  intros drv w Hp. split.
  - intros sql args size. unfold_monad. rewrite Hp. simpl.
    destruct size as [n|]; [destruct (truthy_int (Some n))|];
      case_calls; name_calls; by_cases_on_calls.
  - intros sql args autocommit. unfold_monad. rewrite Hp. simpl.
    destruct autocommit; simpl;
      case_calls; name_calls; by_cases_on_calls.
Qed.

Lemma connection_is_always_released_witness :
  exists new,
    trace (execute lost_connection "delete from `t`" [] false ready).2
    = [] ++ new
    /\ head new = Some EAcquire
    /\ count_calls is_acquire new = 1
    /\ (fails lost_connection [] EAcquire = None ->
        last new = Some ERelease /\ count_calls is_release new = 1)
    /\ (forall e, fails lost_connection [] EAcquire = Some e ->
                  new = [EAcquire]
                  /\ (execute lost_connection "delete from `t`" [] false
                        ready).1 = Raise e).
Proof.
  destruct (connection_is_always_released lost_connection ready eq_refl)
    as [_ Hexecute].
  exact (Hexecute "delete from `t`" [] false).
Defined.

(** X6.  What [select] never does, on any driver and in any state: it
    issues no [begin], [commit] or [rollback]; it sends at most one
    statement, the template with its markers replaced and [args or ()];
    it makes at most one fetch, and when the driver rejects the statement
    it makes none. *)
Theorem select_is_one_plain_query :
  forall (drv : driver) (sql : string) (args : option (list pyval))
         (size : option Z) (w : world),
    let stmt := EExecute (replace_qmark sql) (args_or_empty args) in
    exists new,
      trace (select drv sql args size w).2 = trace w ++ new
      /\ count_calls is_transaction_control new = 0
      /\ count_calls is_statement new <= 1
      /\ count_calls is_fetch new <= 1
      /\ (forall ev, In ev new -> is_statement ev = true -> ev = stmt)
      /\ (forall ev, In ev new -> is_fetch ev = true -> ev = fetch_for size)
      /\ (forall e, fails drv (trace w ++ [EAcquire; ECursor]) stmt = Some e ->
                    count_calls is_fetch new = 0).
Proof.
  intros drv sql args size w stmt. subst stmt.
  unfold_monad. unfold fetch_for, truthy_int.
  destruct (__pool w); simpl;
    try (exists []; rewrite app_nil_r; by_cases_on_calls; tauto).
  destruct size as [n|]; [destruct (Z.eqb n 0)|]; simpl;
    case_calls; name_calls;
    (repeat split; try (unfold count_calls; simpl; lia); try reflexivity;
     try (intros ev Hin Hkind; simpl in Hin;
          repeat (destruct Hin as [<-|Hin];
                  [simpl in Hkind; try discriminate Hkind;
                   try reflexivity|]);
          contradiction);
     intros; rewrite <- ?app_assoc in *; simpl in *; congruence).
Qed.

(** X7.  When the driver rejects the statement of a [select], the cursor
    is closed, the connection released, and the driver's exception is the
    one raised. *)
Theorem select_propagates_statement_error :
  forall (drv : driver) (sql : string) (args : option (list pyval))
         (size : option Z) (w : world) (e : exn),
    __pool w = BoundPool ->
    let stmt := EExecute (replace_qmark sql) (args_or_empty args) in
    fails drv (trace w) EAcquire = None ->
    fails drv (trace w ++ [EAcquire]) ECursor = None ->
    fails drv (trace w ++ [EAcquire; ECursor]) stmt = Some e ->
    fails drv (trace w ++ [EAcquire; ECursor; stmt]) ECursorClose = None ->
    fails drv (trace w ++ [EAcquire; ECursor; stmt; ECursorClose]) ERelease
    = None ->
    select drv sql args size w
    = (Raise e,
       World BoundPool
         (trace w ++ [EAcquire; ECursor; stmt; ECursorClose; ERelease])
         (heap w)).
Proof.
  intros drv sql args size w e Hp stmt Ha Hc Hs Hx Hr. subst stmt.
  unfold_monad. rewrite Hp. simpl.
  advance Ha. advance Hc. advance Hs. advance Hx. advance Hr.
  rewrite <- ?app_assoc. simpl. now rewrite ?Hp.
Qed.

Lemma select_propagates_statement_error_witness :
  select rejects_statement "select `id` from `t` where `id`=?"
    (Some [PInt 1]) (Some 1%Z) ready
  = (Raise (Exn "IntegrityError" "Duplicate entry"),
     World BoundPool
       [EAcquire; ECursor;
        EExecute "select `id` from `t` where `id`=%s" [PInt 1];
        ECursorClose; ERelease] []).
Proof.
  apply (select_propagates_statement_error rejects_statement
           "select `id` from `t` where `id`=?" (Some [PInt 1]) (Some 1%Z)
           ready (Exn "IntegrityError" "Duplicate entry"));
    reflexivity.
Defined.

(** X8.  [execute] with autocommit, on a created pool: when every call
    returns, the value is [cur.rowcount] as it stands right after the
    statement, before the cursor is closed; when the driver rejects the
    statement, its exception is raised after the cursor was closed and the
    connection released.  Five calls are made in both cases. *)
Theorem execute_autocommit_outcome :
  forall (drv : driver) (sql : string) (args : list pyval) (w : world),
    __pool w = BoundPool ->
    let stmt := EExecute (replace_qmark sql) args in
    let calls := [EAcquire; ECursor; stmt; ECursorClose; ERelease] in
    fails drv (trace w) EAcquire = None ->
    fails drv (trace w ++ [EAcquire]) ECursor = None ->
    fails drv (trace w ++ [EAcquire; ECursor; stmt]) ECursorClose = None ->
    fails drv (trace w ++ [EAcquire; ECursor; stmt; ECursorClose]) ERelease
    = None ->
    (fails drv (trace w ++ [EAcquire; ECursor]) stmt = None ->
     execute drv sql args true w
     = (Ok (rowcount drv (trace w ++ [EAcquire; ECursor; stmt])),
        World BoundPool (trace w ++ calls) (heap w)))
    /\ (forall e,
           fails drv (trace w ++ [EAcquire; ECursor]) stmt = Some e ->
           execute drv sql args true w
           = (Raise e, World BoundPool (trace w ++ calls) (heap w))).
Proof.
  intros drv sql args w Hp stmt calls Ha Hc Hx Hr. subst stmt calls.
  split; [intros Hs | intros e Hs];
    unfold_monad; rewrite Hp; simpl;
    advance Ha; advance Hc; advance Hs; advance Hx; advance Hr;
    rewrite <- ?app_assoc; simpl; now rewrite ?Hp.
Qed.

Lemma execute_autocommit_outcome_witness :
  execute (steady [] 3) "update `t` set `n`=?" [PInt 0] true ready
  = (Ok 3%Z,
     World BoundPool
       [EAcquire; ECursor; EExecute "update `t` set `n`=%s" [PInt 0];
        ECursorClose; ERelease] []).
Proof.
  destruct (execute_autocommit_outcome (steady [] 3) "update `t` set `n`=?"
              [PInt 0] ready eq_refl eq_refl eq_refl eq_refl eq_refl)
    as [Hok _].
  exact (Hok eq_refl).
Defined.

Lemma select_is_one_plain_query_witness :
  exists new,
    trace (select rejects_statement "select ?" (Some [PInt 1]) (Some 5%Z)
             ready).2 = [] ++ new
    /\ count_calls is_transaction_control new = 0
    /\ count_calls is_statement new <= 1
    /\ count_calls is_fetch new <= 1
    /\ (forall ev, In ev new -> is_statement ev = true ->
                   ev = EExecute "select %s" [PInt 1])
    /\ (forall ev, In ev new -> is_fetch ev = true -> ev = EFetchmany 5)
    /\ (forall e,
           fails rejects_statement [EAcquire; ECursor]
             (EExecute "select %s" [PInt 1]) = Some e ->
           count_calls is_fetch new = 0).
Proof.
  exact (select_is_one_plain_query rejects_statement "select ?"
           (Some [PInt 1]) (Some 5%Z) ready).
Defined.

(** ** Placeholders *)

(** X9.  The replacement of markers is purely textual: it works piece by
    piece on a concatenation, leaves no ['?'] behind, and makes the
    statement longer by one character for each marker. *)
Theorem replace_qmark_textual :
  forall a b : string,
    replace_qmark (a +:+ b) = replace_qmark a +:+ replace_qmark b
    /\ count_qmark (replace_qmark a) = 0
    /\ String.length (replace_qmark a) = String.length a + count_qmark a.
Proof.
  intros a b. split; [apply replace_qmark_app|].
  split; [apply replace_qmark_no_qmark|].
  induction a as [|c a IH]; simpl; [reflexivity|].
  destruct (Ascii.eqb c "?"); simpl; rewrite IH; lia.
Qed.

(** X10.  [create_args_string(num)] holds exactly [num] markers; it is
    empty for [0] and otherwise one marker followed by [num - 1] times
    [', ?'], so [3 * num - 2] characters long. *)
Theorem create_args_string_shape :
  forall num : nat,
    count_qmark (create_args_string num) = num
    /\ create_args_string 0 = ""
    /\ create_args_string (S num)
       = "?" +:+ String.concat "" (repeat ", ?" num)
    /\ String.length (create_args_string num) = 3 * num - 2.
Proof.
  intros num.
  assert (Hshape : forall n, create_args_string (S n)
                             = "?" +:+ String.concat "" (repeat ", ?" n)).
  { unfold create_args_string, join.
    induction n as [|n IH]; [reflexivity|].
    change (repeat "?" (S (S n))) with ("?" :: repeat "?" (S n)).
    change (String.concat ", " ("?" :: repeat "?" (S n)))
      with ("?" +:+ ", " +:+ String.concat ", " (repeat "?" (S n))).
    rewrite IH. simpl. destruct n; reflexivity. }
  assert (Hlen : forall n, String.length (String.concat "" (repeat ", ?" n))
                           = 3 * n).
  { induction n as [|n IH]; [reflexivity|].
    simpl repeat. destruct n as [|n].
    - reflexivity.
    - change (String.concat "" (", ?" :: repeat ", ?" (S n)))
        with (", ?" +:+ "" +:+ String.concat "" (repeat ", ?" (S n))).
      rewrite !length_append, IH. simpl. lia. }
  split; [apply count_qmark_create_args_string|].
  split; [reflexivity|]. split; [apply Hshape|].
  destruct num as [|n]; [reflexivity|].
  rewrite Hshape, length_append, Hlen. simpl. lia.
Qed.

(** ** The metaclass, continued *)

(** The rest of what a successful declaration stores. *)
Lemma ModelMetaclass_new_stores name table attrs cls :
  ModelMetaclass_new name table attrs = Ok (EntityClass cls) ->
  String.eqb name "Model" = false
  /\ exists st,
       scan attrs (Scan ∅ [] None) = Ok st
       /\ __mappings__ cls = mappings st
       /\ __name__ cls = name
       /\ __table__ cls = table_name_for name table
       /\ __delete__ cls
          = "delete from `" +:+ __table__ cls +:+ "` where `"
            +:+ __primary_key__ cls +:+ "`=?"
       /\ namespace cls
          = List.filter
              (fun kv => negb (bool_decide (is_Some (mappings st !! kv.1))))
              attrs.
Proof.
  unfold ModelMetaclass_new, table_name_for.
  destruct (String.eqb name "Model"); [discriminate|].
  destruct (scan attrs _) as [st|] eqn:Hscan; [|discriminate].
  destruct (primaryKey st) as [pk|] eqn:Hpk; [|discriminate].
  destruct (truthy_str (Some pk)); [|discriminate]. simpl.
  destruct (map_result _ _) as [clauses|]; [|discriminate].
  intros [= <-]. simpl. split; [reflexivity|].
  exists st. repeat split.
  destruct table as [t|]; [|reflexivity].
  simpl. now destruct (String.eqb t "").
Qed.

Lemma unique_key_value {A} (l : list (string * A)) k a b :
  NoDup (map fst l) -> In (k, a) l -> In (k, b) l -> a = b.
Proof.
  induction l as [|[k0 v0] l IH]; intros Hnd Ha Hb; [destruct Ha|].
  simpl in Hnd. apply NoDup_cons in Hnd as [Hk0 Hnd].
  assert (Hfresh : forall v, ~ In (k0, v) l).
  { intros v Hin. apply Hk0. apply list_elem_of_In.
    apply in_map_iff. now exists (k0, v). }
  destruct Ha as [Ha|Ha], Hb as [Hb|Hb].
  - congruence.
  - injection Ha as -> ->. now destruct (Hfresh b).
  - injection Hb as -> ->. now destruct (Hfresh a).
  - now apply IH.
Qed.

Lemma NoDup_keys_filter {A} (p : string * A -> bool) (l : list (string * A)) :
  NoDup (map fst l) -> NoDup (map fst (List.filter p l)).
Proof.
  induction l as [|[k v] l IH]; intros Hnd; [constructor|].
  simpl in Hnd. apply NoDup_cons in Hnd as [Hk Hnd]. simpl.
  destruct (p (k, v)); [|now apply IH].
  simpl. apply NoDup_cons. split; [|now apply IH].
  intros Hin. apply Hk. apply list_elem_of_In.
  apply list_elem_of_In in Hin. apply in_map_iff in Hin as (kv & Hkv & Hin).
  apply filter_In in Hin as [Hin _]. apply in_map_iff. eauto.
Qed.

(** X11.  A declaration splits the class body in two: the entries whose
    value is a field descriptor become the mapping, each under its key,
    and are popped from the class namespace; every other entry stays in
    the namespace, in its place, and none of them is mapped. *)
Theorem class_body_is_partitioned :
  forall (name : string) (table : option string)
         (attrs : list (string * attr)) (cls : EntityType),
    NoDup (map fst attrs) ->
    ModelMetaclass_new name table attrs = Ok (EntityClass cls) ->
    (forall k f, __mappings__ cls !! k = Some f <-> In (k, AField f) attrs)
    /\ namespace cls = List.filter is_plain_attr attrs
    /\ (forall k v, In (k, v) (namespace cls) -> __mappings__ cls !! k = None).
Proof.
  intros name table attrs cls Hnd Hnew.
  destruct (ModelMetaclass_new_stores _ _ _ _ Hnew)
    as (_ & st & Hscan & Hmap & _ & _ & _ & Hns).
  destruct (scan_inv attrs _ _ Hscan) as (_ & Hsub & _ & _).
  assert (Hiff : forall k f,
             mappings st !! k = Some f <-> In (k, AField f) attrs).
  { intros k f. split.
    - intros H. destruct (Hsub _ _ H) as [H0|H0]; [|exact H0].
      cbn [mappings] in H0. now rewrite lookup_empty in H0.
    - apply (scan_lookup _ _ _ Hnd Hscan). }
  assert (Hfilter : List.filter
                      (fun kv => negb (bool_decide
                                         (is_Some (mappings st !! kv.1))))
                      attrs
                    = List.filter is_plain_attr attrs).
  { apply filter_ext_in. intros [k v] Hin. unfold is_plain_attr. simpl.
    destruct v as [f|v].
    - apply (scan_lookup _ _ _ Hnd Hscan) in Hin. rewrite Hin.
      rewrite bool_decide_eq_true_2 by eauto. reflexivity.
    - rewrite bool_decide_eq_false_2; [reflexivity|].
      intros [f Hf]. apply Hiff in Hf.
      discriminate (unique_key_value _ _ _ _ Hnd Hin Hf). }
  rewrite Hmap, Hns, Hfilter. split; [exact Hiff|]. split; [reflexivity|].
  intros k v Hin. apply filter_In in Hin as [Hin Hplain].
  destruct v as [f|v]; [discriminate Hplain|].
  destruct (mappings st !! k) as [f|] eqn:Hf; [|reflexivity].
  apply Hiff in Hf. discriminate (unique_key_value _ _ _ _ Hnd Hin Hf).
Qed.

Lemma class_body_is_partitioned_witness :
  (forall k f,
      __mappings__ User !! k = Some f <-> In (k, AField f) User_attrs)
  /\ namespace User = List.filter is_plain_attr User_attrs
  /\ (forall k v, In (k, v) (namespace User) -> __mappings__ User !! k = None).
Proof.
  apply (class_body_is_partitioned "User" None User_attrs User).
  - apply (bool_decide_unpack _). reflexivity.
  - exact User_declared.
Defined.

(** X12.  With keys that are not empty, an entity type has exactly one
    field flagged as primary key; its key is [__primary_key__], it is not
    among [__fields__], no key occurs twice in [__fields__], and the
    mapped keys are exactly the primary key and the keys of
    [__fields__], the latter being the fields that are not flagged. *)
Theorem mapped_keys_split :
  forall (name : string) (table : option string)
         (attrs : list (string * attr)) (cls : EntityType),
    NoDup (map fst attrs) ->
    (forall k, In k (primary_keys attrs) -> k <> "") ->
    ModelMetaclass_new name table attrs = Ok (EntityClass cls) ->
    let pk := __primary_key__ cls in
    primary_keys attrs = [pk]
    /\ ~ In pk (__fields__ cls)
    /\ NoDup (__fields__ cls ++ [pk])
    /\ (exists f, __mappings__ cls !! pk = Some f
                  /\ Field.primary_key f = true)
    /\ (forall k, In k (__fields__ cls) ->
                  exists f, __mappings__ cls !! k = Some f
                            /\ Field.primary_key f = false)
    /\ (forall k, is_Some (__mappings__ cls !! k)
                  <-> k = pk \/ In k (__fields__ cls)).
Proof.
  intros name table attrs cls Hnd Hkeys Hnew pk. subst pk.
  destruct (ModelMetaclass_new_stores _ _ _ _ Hnew)
    as (Hname & st & Hscan & Hmap & _).
  destruct (ModelMetaclass_new_entity _ _ _ _ Hnew)
    as (st' & _ & Hscan' & _ & _ & _ & Hfields & _).
  rewrite Hscan in Hscan'. injection Hscan' as <-.
  destruct (scan_inv attrs _ _ Hscan) as (Hother & Hsub & _ & _).
  simpl in Hother.
  pose proof (declaration_outcome name table attrs Hname Hkeys) as Hone.
  rewrite Hnew in Hone.
  assert (Hlookup : forall k f, In (k, AField f) attrs ->
                                __mappings__ cls !! k = Some f)
    by (rewrite Hmap; apply (scan_lookup _ _ _ Hnd Hscan)).
  assert (Hpk : exists f, In (__primary_key__ cls, AField f) attrs
                          /\ Field.primary_key f = true).
  { assert (Hin : In (__primary_key__ cls) (primary_keys attrs))
      by (rewrite Hone; now left).
    unfold primary_keys in Hin. apply in_map_iff in Hin as ([k v] & <- & Hin).
    apply filter_In in Hin as [Hin Hflag].
    destruct v as [f|v]; [|discriminate]. eauto. }
  destruct Hpk as (fpk & Hinpk & Hflagpk).
  assert (Hnotin : ~ In (__primary_key__ cls) (fields st)).
  { intros Hin. rewrite Hother in Hin.
    destruct (other_fields_declared _ _ Hin) as (f & Hinf & Hflag).
    pose proof (unique_key_value _ _ _ _ Hnd Hinf Hinpk) as Hsame.
    injection Hsame as ->. congruence. }
  rewrite Hfields.
  split; [exact Hone|]. split; [exact Hnotin|]. split; [|split; [|split]].
  - apply NoDup_app. split; [|split].
    + rewrite Hother. unfold other_fields. now apply NoDup_keys_filter.
    + intros k Hk Hpk. apply list_elem_of_In in Hk.
      apply list_elem_of_In in Hpk. destruct Hpk as [<-|[]]. auto.
    + apply NoDup_singleton.
  - exists fpk. split; [now apply Hlookup | exact Hflagpk].
  - intros k Hin. rewrite Hother in Hin.
    destruct (other_fields_declared _ _ Hin) as (f & Hinf & Hflag).
    exists f. split; [now apply Hlookup | exact Hflag].
  - intros k. split.
    + intros [f Hk]. rewrite Hmap in Hk.
      destruct (Hsub _ _ Hk) as [H0|H0];
        [cbn [mappings] in H0; now rewrite lookup_empty in H0|].
      destruct (Field.primary_key f) eqn:Hflag.
      * left.
        assert (Hin : In k (primary_keys attrs)).
        { unfold primary_keys. apply in_map_iff.
          exists (k, AField f). split; [reflexivity|].
          apply filter_In. split; [exact H0 | exact Hflag]. }
        rewrite Hone in Hin. destruct Hin as [<-|[]]. reflexivity.
      * right. rewrite Hother. unfold other_fields. apply in_map_iff.
        exists (k, AField f). split; [reflexivity|].
        apply filter_In. split; [exact H0|].
        unfold is_other_field. simpl. now rewrite Hflag.
    + intros [->|Hin].
      * exists fpk. now apply Hlookup.
      * rewrite Hother in Hin.
        destruct (other_fields_declared _ _ Hin) as (f & Hinf & _).
        exists f. now apply Hlookup.
Qed.

Lemma mapped_keys_split_witness :
  primary_keys User_attrs = ["id"]
  /\ ~ In "id" (__fields__ User)
  /\ NoDup (__fields__ User ++ ["id"])
  /\ (exists f, __mappings__ User !! "id" = Some f
                /\ Field.primary_key f = true)
  /\ (forall k, In k (__fields__ User) ->
                exists f, __mappings__ User !! k = Some f
                          /\ Field.primary_key f = false)
  /\ (forall k, is_Some (__mappings__ User !! k)
                <-> k = "id" \/ In k (__fields__ User)).
Proof.
  apply (mapped_keys_split "User" None User_attrs User).
  - apply (bool_decide_unpack _). reflexivity.
  - intros k [<-|[]]. discriminate.
  - exact User_declared.
Defined.

(** X13.  The table name is the declared [__table__] unless that is
    missing or empty, in which case it is the class name.  When it and
    the attribute keys of the fields contain no ['?'], the select
    template takes no argument and the delete template exactly one, the
    primary-key value. *)
Theorem select_delete_placeholder_counts :
  forall (name : string) (table : option string)
         (attrs : list (string * attr)) (cls : EntityType),
    ModelMetaclass_new name table attrs = Ok (EntityClass cls) ->
    count_qmark (table_name_for name table) = 0 ->
    (forall k f, In (k, AField f) attrs -> count_qmark k = 0) ->
    __table__ cls = table_name_for name table
    /\ count_qmark (__select__ cls) = 0
    /\ __delete__ cls
       = "delete from `" +:+ table_name_for name table +:+ "` where `"
         +:+ __primary_key__ cls +:+ "`=?"
    /\ count_qmark (__delete__ cls) = 1.
Proof.
  intros name table attrs cls Hnew Htable Hfree.
  destruct (ModelMetaclass_new_stores _ _ _ _ Hnew)
    as (_ & st & Hscan & _ & _ & Htab & Hdel & _).
  destruct (ModelMetaclass_new_entity _ _ _ _ Hnew)
    as (st' & _ & Hscan' & Hpk & _ & _ & _ & Hsel & _).
  rewrite Hscan in Hscan'. injection Hscan' as <-.
  destruct (scan_inv attrs _ _ Hscan) as (Hother & _ & _ & Hkey).
  simpl in Hother.
  assert (Hpkfree : count_qmark (__primary_key__ cls) = 0).
  { destruct (Hkey _ Hpk) as [H|H]; [discriminate H|].
    destruct (primary_keys_declared _ _ H) as [f Hin].
    exact (Hfree _ _ Hin). }
  assert (Hfsfree : forall f, In f (fields st) -> count_qmark f = 0).
  { intros f Hin. rewrite Hother in Hin.
    destruct (other_fields_declared _ _ Hin) as (fld & Hfld & _).
    exact (Hfree _ _ Hfld). }
  split; [exact Htab|]. split; [|split].
  - rewrite Hsel, !count_qmark_app, count_qmark_join, map_map, Htab, Htable.
    rewrite Hpkfree, list_sum_zero
      by (intros f Hin; rewrite count_qmark_escape; now apply Hfsfree).
    simpl. lia.
  - now rewrite Hdel, Htab.
  - rewrite Hdel, !count_qmark_app, Htab, Htable, Hpkfree. simpl. lia.
Qed.

Lemma select_delete_placeholder_counts_witness :
  __table__ User = "User"
  /\ count_qmark (__select__ User) = 0
  /\ __delete__ User = "delete from `User` where `id`=?"
  /\ count_qmark (__delete__ User) = 1.
Proof.
  apply (select_delete_placeholder_counts "User" None User_attrs User
           User_declared eq_refl).
  intros k f Hin. simpl in Hin.
  repeat (destruct Hin as [[= <- <-]|Hin]; [reflexivity|]).
  destruct Hin.
Defined.

(** X14.  For a class other than [Model] whose primary-key fields have
    keys that are not empty, the declaration goes through exactly when
    one field is flagged as primary key; and whenever a declaration
    fails, the exception is the [NameError] on [StandardError]. *)
Theorem declaration_succeeds_iff_one_primary_key :
  forall (name : string) (table : option string)
         (attrs : list (string * attr)),
    String.eqb name "Model" = false ->
    (forall k, In k (primary_keys attrs) -> k <> "") ->
    ((exists cls, ModelMetaclass_new name table attrs = Ok (EntityClass cls))
     <-> length (primary_keys attrs) = 1)
    /\ (forall e, ModelMetaclass_new name table attrs = Raise e ->
                  e = NameError "StandardError").
Proof.
  intros name table attrs Hname Hkeys.
  pose proof (declaration_outcome name table attrs Hname Hkeys) as Hout.
  destruct (ModelMetaclass_new name table attrs) as [[plain body|cls]|e].
  - destruct Hout.
  - split; [|discriminate]. split; [|eauto].
    intros _. now rewrite Hout.
  - destruct Hout as [Hlen ->]. split; [|now intros e' [= <-]].
    split; [intros [cls H]; discriminate H | contradiction].
Qed.

Lemma declaration_succeeds_iff_one_primary_key_witness :
  ((exists cls, ModelMetaclass_new "User" None User_attrs
                = Ok (EntityClass cls))
   <-> length (primary_keys User_attrs) = 1)
  /\ (forall e, ModelMetaclass_new "User" None User_attrs = Raise e ->
                e = NameError "StandardError").
Proof.
  apply (declaration_succeeds_iff_one_primary_key "User" None User_attrs).
  - reflexivity.
  - intros k [<-|[]]. discriminate.
Defined.

(** ** Attribute access and defaults *)

(** X15.  Attribute access on an instance.  For a key that ordinary
    lookup does not find on the class, a value written with
    [__setattr__] is the value read back, and reading a key that was
    never set raises [AttributeError].  For a key that names a class
    attribute the write goes to the dictionary all the same, but reading
    gives the class attribute.  Writing one key changes the reading of no
    other key, and [getValue] is the attribute read with [None] in place
    of the [AttributeError]. *)
Theorem attribute_write_then_read :
  forall (inherited : string -> option pyval) (cls : EntityType)
         (self : instance) (key : string) (v : pyval),
    (class_lookup inherited cls key = None ->
     read_attribute inherited cls (__setattr__ self key v) key = Ok v
     /\ (self !! key = None ->
         read_attribute inherited cls self key
         = Raise (Exn "AttributeError"
                    ("'Model' object has no attribute '" +:+ key +:+ "'"))))
    /\ (forall c, class_lookup inherited cls key = Some c ->
                  __setattr__ self key v !! key = Some v
                  /\ read_attribute inherited cls (__setattr__ self key v)
                       key = Ok c)
    /\ (forall other, other <> key ->
                      read_attribute inherited cls (__setattr__ self key v)
                        other
                      = read_attribute inherited cls self other)
    /\ getValue inherited cls self key
       = match read_attribute inherited cls self key with
         | Ok x => x
         | Raise _ => PNone
         end.
Proof.
  intros inherited cls self key v.
  unfold read_attribute, __getattr__, __setattr__, getValue,
    getattr_or_none.
  split; [|split; [|split]].
  - intros ->. rewrite lookup_insert_eq. split; [reflexivity|].
    now intros ->.
  - intros c ->. now rewrite lookup_insert_eq.
  - intros other Hne. destruct (class_lookup inherited cls other);
      [reflexivity|]. now rewrite lookup_insert_ne.
  - destruct (class_lookup inherited cls key); [reflexivity|].
    now destruct (self !! key).
Qed.

Lemma attribute_write_then_read_witness :
  read_attribute (fun _ => None) User
    (__setattr__ {["id" := PInt 8]} "email" (PStr "sly@example.com"))
    "email"
  = Ok (PStr "sly@example.com")
  /\ read_attribute (fun _ => None) User
       (__setattr__ {["id" := PInt 8]} "save" (PStr "now")) "save"
     = Ok (PCallable "Model.save").
Proof.
  destruct (attribute_write_then_read (fun _ => None) User
              {["id" := PInt 8]} "email" (PStr "sly@example.com"))
    as (Hplain & _).
  destruct (attribute_write_then_read (fun _ => None) User
              {["id" := PInt 8]} "save" (PStr "now"))
    as (_ & Hshadowed & _).
  split.
  - exact (proj1 (Hplain eq_refl)).
  - exact (proj2 (Hshadowed (PCallable "Model.save") eq_refl)).
Defined.

(** X16.  A default is generated once.  For a key that ordinary lookup
    does not find on the class, once [getValueOrDefault] has returned a
    value other than [None], calling it again returns the same value,
    calls no producer and leaves the instance as it is; [getValue]
    returns that value too. *)
Theorem getValueOrDefault_is_stable :
  forall (inherited : string -> option pyval)
         (produce : string -> nat -> pyval) (cls : EntityType)
         (self self' : instance) (key : string) (v : pyval)
         (clock clock' : nat),
    class_lookup inherited cls key = None ->
    getValueOrDefault inherited produce cls self key clock
    = (Ok v, self', clock') ->
    v <> PNone ->
    getValueOrDefault inherited produce cls self' key clock'
    = (Ok v, self', clock')
    /\ getValue inherited cls self' key = v.
Proof.
  intros inherited produce cls self self' key v clock clock' Hcls Hfirst Hv.
  assert (Hstored : self' !! key = Some v).
  { revert Hfirst. unfold getValueOrDefault, getattr_or_none.
    rewrite Hcls.
    destruct (self !! key) as [stored|] eqn:Hself; simpl.
    - destruct (is_none stored) eqn:Hnone.
      + destruct (__mappings__ cls !! key) as [field|]; [|discriminate].
        destruct (is_none (Field.default field)); simpl.
        * intros [= <- <- <-]. destruct stored; try discriminate Hnone.
          now destruct Hv.
        * destruct (Field.default field); intros [= <- <- <-];
            apply lookup_insert_eq.
      + intros [= <- <- <-]. exact Hself.
    - destruct (__mappings__ cls !! key) as [field|]; [|discriminate].
      destruct (is_none (Field.default field)); simpl.
      + intros [= <- <- <-]. now destruct Hv.
      + destruct (Field.default field); intros [= <- <- <-];
          apply lookup_insert_eq. }
  unfold getValueOrDefault, getValue, getattr_or_none.
  rewrite Hcls, Hstored.
  destruct v; try (split; reflexivity). now destruct Hv.
Qed.

Lemma getValueOrDefault_is_stable_witness :
  getValueOrDefault (fun _ => None) (fun _ n => PInt (Z.of_nat n)) User
    (<["id" := PInt 0]> {["username" := PStr "sly"]}) "id" 7
  = (Ok (PInt 0), <["id" := PInt 0]> {["username" := PStr "sly"]}, 7)
  /\ getValue (fun _ => None) User
       (<["id" := PInt 0]> {["username" := PStr "sly"]}) "id"
     = PInt 0.
Proof.
  apply (getValueOrDefault_is_stable (fun _ => None)
           (fun _ n => PInt (Z.of_nat n)) User {["username" := PStr "sly"]}
           (<["id" := PInt 0]> {["username" := PStr "sly"]}) "id" (PInt 0)
           7 7).
  - reflexivity.
  - reflexivity.
  - discriminate.
Defined.

(** X17.  [getValueOrDefault] looks the key up in the mapping only when
    it found no value.  For a key that is not mapped (and that ordinary
    lookup does not find on the class) it raises [KeyError] when the
    instance holds no value or [None] under the key, leaving the instance
    as it is, and returns the stored value otherwise. *)
Theorem getValueOrDefault_unmapped_key :
  forall (inherited : string -> option pyval)
         (produce : string -> nat -> pyval) (cls : EntityType)
         (self : instance) (key : string) (clock : nat),
    class_lookup inherited cls key = None ->
    __mappings__ cls !! key = None ->
    (self !! key = None \/ self !! key = Some PNone ->
     getValueOrDefault inherited produce cls self key clock
     = (Raise (KeyError key), self, clock))
    /\ (forall v, self !! key = Some v -> v <> PNone ->
                  getValueOrDefault inherited produce cls self key clock
                  = (Ok v, self, clock)).
Proof.
  intros inherited produce cls self key clock Hcls Hmap.
  unfold getValueOrDefault, getattr_or_none. rewrite Hcls, Hmap.
  split.
  - intros [-> | ->]; reflexivity.
  - intros v -> Hv. destruct v; try reflexivity. now destruct Hv.
Qed.

Lemma getValueOrDefault_unmapped_key_witness :
  getValueOrDefault (fun _ => None) (fun _ _ => PNone) User
    {["id" := PInt 8]} "age" 0
  = (Raise (Exn "KeyError" "'age'"), {["id" := PInt 8]}, 0).
Proof.
  destruct (getValueOrDefault_unmapped_key (fun _ => None)
              (fun _ _ => PNone) User {["id" := PInt 8]} "age" 0
              eq_refl eq_refl) as [Hmissing _].
  exact (Hmissing (or_introl eq_refl)).
Defined.

(** ** Saving, updating and removing *)

Lemma getValue_depends_on_entry inherited cls (self self' : instance) key :
  self !! key = self' !! key ->
  getValue inherited cls self key = getValue inherited cls self' key.
Proof. unfold getValue, getattr_or_none. now intros ->. Qed.

Lemma getValue_stored inherited cls (self : instance) key :
  class_lookup inherited cls key = None ->
  getValue inherited cls self key = stored_or_none self key.
Proof. unfold getValue, getattr_or_none, stored_or_none. now intros ->. Qed.

(** One call of [getValueOrDefault] touches no other key, and [getValue]
    then agrees with what it returned. *)
Lemma getValueOrDefault_frame inherited produce cls self key clock r self'
    clock' :
  getValueOrDefault inherited produce cls self key clock = (r, self', clock') ->
  (forall other, other <> key -> self' !! other = self !! other)
  /\ (forall v, r = Ok v -> class_lookup inherited cls key = None ->
                getValue inherited cls self' key = v).
Proof.
  unfold getValueOrDefault, getValue, getattr_or_none.
  destruct (class_lookup inherited cls key) as [c|]; simpl.
  - destruct (is_none c) eqn:Hc.
    + destruct (__mappings__ cls !! key) as [field|];
        [|intros [= <- <- <-]; split; [auto | discriminate]].
      destruct (is_none (Field.default field)); simpl;
        [intros [= <- <- <-]; split; [auto | discriminate]|].
      destruct (Field.default field); intros [= <- <- <-];
        (split; [intros; now apply lookup_insert_ne | discriminate]).
    + intros [= <- <- <-]. split; [auto | discriminate].
  - destruct (self !! key) as [stored|] eqn:Hself; simpl.
    + destruct (is_none stored) eqn:Hnone.
      * destruct (__mappings__ cls !! key) as [field|];
          [|intros [= <- <- <-]; split; [auto | discriminate]].
        destruct (is_none (Field.default field)); simpl.
        -- intros [= <- <- <-]. split; [auto|].
           intros v [= <-] _. now rewrite Hself.
        -- destruct (Field.default field); intros [= <- <- <-];
             (split; [intros; now apply lookup_insert_ne|]);
             intros v [= <-] _; now rewrite lookup_insert_eq.
      * intros [= <- <- <-]. split; [auto|].
        intros v [= <-] _. now rewrite Hself.
    + destruct (__mappings__ cls !! key) as [field|];
        [|intros [= <- <- <-]; split; [auto | discriminate]].
      destruct (is_none (Field.default field)); simpl.
      * intros [= <- <- <-]. split; [auto|].
        intros v [= <-] _. now rewrite Hself.
      * destruct (Field.default field); intros [= <- <- <-];
          (split; [intros; now apply lookup_insert_ne|]);
          intros v [= <-] _; now rewrite lookup_insert_eq.
Qed.

Lemma map_getValueOrDefault_app inherited produce cls keys more self clock :
  map_getValueOrDefault inherited produce cls (keys ++ more) self clock
  = match map_getValueOrDefault inherited produce cls keys self clock with
    | (Ok vs, self1, clock1) =>
        match map_getValueOrDefault inherited produce cls more self1 clock1
        with
        | (Ok ws, self2, clock2) => (Ok (vs ++ ws), self2, clock2)
        | (Raise e, self2, clock2) => (Raise e, self2, clock2)
        end
    | (Raise e, self1, clock1) => (Raise e, self1, clock1)
    end.
Proof.
  revert self clock. induction keys as [|k keys IH]; intros self clock.
  - simpl.
    destruct (map_getValueOrDefault inherited produce cls more self clock)
      as [[[ws|e] self2] clock2]; reflexivity.
  - simpl.
    destruct (getValueOrDefault inherited produce cls self k clock)
      as [[[v|e] self1] clock1]; [|reflexivity].
    rewrite IH.
    destruct (map_getValueOrDefault inherited produce cls keys self1 clock1)
      as [[[vs|e] self2] clock2]; [|reflexivity].
    destruct (map_getValueOrDefault inherited produce cls more self2 clock2)
      as [[[ws|e] self3] clock3]; reflexivity.
Qed.

(** Resolving a list of distinct keys: one value per key, keys outside
    the list untouched, and [getValue] on the resulting instance gives
    the values again. *)
Lemma map_getValueOrDefault_values inherited produce cls keys :
  forall self clock vals self' clock',
    NoDup keys ->
    (forall k, In k keys -> class_lookup inherited cls k = None) ->
    map_getValueOrDefault inherited produce cls keys self clock
    = (Ok vals, self', clock') ->
    length vals = length keys
    /\ (forall other, ~ In other keys -> self' !! other = self !! other)
    /\ map (getValue inherited cls self') keys = vals.
Proof.
  induction keys as [|k keys IH];
    intros self clock vals self' clock' Hnd Hcls Hmap; simpl in Hmap.
  - injection Hmap as <- <- <-. auto.
  - apply NoDup_cons in Hnd as [Hk Hnd].
    destruct (getValueOrDefault inherited produce cls self k clock)
      as [[[v|e] self1] clock1] eqn:Hone; [|discriminate].
    destruct (map_getValueOrDefault inherited produce cls keys self1 clock1)
      as [[[vs|e] self2] clock2] eqn:Hrest; [|discriminate].
    injection Hmap as <- <- <-.
    destruct (getValueOrDefault_frame _ _ _ _ _ _ _ _ _ Hone)
      as [Hframe Hvalue].
    destruct (IH _ _ _ _ _ Hnd (fun k' H => Hcls k' (or_intror H)) Hrest)
      as (Hlen & Hkeep & Hvals).
    split; [simpl; now rewrite Hlen|]. split.
    + intros other Hother. simpl in Hother.
      rewrite Hkeep by tauto. apply Hframe. intros ->. tauto.
    + simpl. rewrite Hvals. f_equal.
      rewrite (getValue_depends_on_entry inherited cls self2 self1 k).
      * apply Hvalue; [reflexivity|]. apply Hcls. now left.
      * apply Hkeep. intros Hin. apply Hk. now apply list_elem_of_In.
Qed.

Lemma warning_unless_one_none py_str what rows :
  warning_unless_one py_str what rows = None <-> rows = 1%Z.
Proof.
  unfold warning_unless_one. destruct (Z.eqb_spec rows 1); split;
    intros H; try reflexivity; try discriminate; congruence.
Qed.

(** X18.  [save] resolves the fields in declaration order, then the
    primary key, and sends these values with the insert template, one
    value per column.  On a created pool and a driver on which no call
    fails it returns normally whatever [rowcount] is, logging a warning
    exactly when that is not [1]; when [execute] raises instead, the
    instance still holds the defaults generated for the insert. *)
Theorem save_inserts_resolved_values :
  forall (drv : driver) (py_str : pyval -> string)
         (inherited : string -> option pyval)
         (produce : string -> nat -> pyval) (cls : EntityType)
         (self self' : instance) (clock clock' : nat) (vals : list pyval)
         (w : world),
    map_getValueOrDefault inherited produce cls
      (__fields__ cls ++ [__primary_key__ cls]) self clock
    = (Ok vals, self', clock') ->
    let calls :=
      [EAcquire; ECursor; EExecute (replace_qmark (__insert__ cls)) vals;
       ECursorClose; ERelease] in
    let rows := rowcount drv (trace w ++ take 3 calls) in
    (__pool w = BoundPool ->
     (forall i ev, calls !! i = Some ev ->
                   fails drv (trace w ++ take i calls) ev = None) ->
     exists warning,
       save drv py_str inherited produce cls self clock w
       = (Ok warning, self', clock',
          World BoundPool (trace w ++ calls) (heap w))
       /\ (warning = None <-> rows = 1%Z))
    /\ (forall e w',
           execute drv (__insert__ cls) vals true w = (Raise e, w') ->
           save drv py_str inherited produce cls self clock w
           = (Raise e, self', clock', w')).
Proof.
  intros drv py_str inherited produce cls self self' clock clock' vals w
    Hvals calls rows.
  rewrite map_getValueOrDefault_app in Hvals.
  destruct (map_getValueOrDefault inherited produce cls (__fields__ cls)
              self clock) as [[[args|e] self1] clock1] eqn:Hfields;
    [|discriminate].
  simpl in Hvals.
  destruct (getValueOrDefault inherited produce cls self1
              (__primary_key__ cls) clock1) as [[[kv|e] self2] clock2]
    eqn:Hkey; [|discriminate].
  injection Hvals as <- <- <-.
  split.
  - intros Hp Hok.
    pose proof (Hok 0 _ eq_refl) as H0. pose proof (Hok 1 _ eq_refl) as H1.
    pose proof (Hok 2 _ eq_refl) as H2. pose proof (Hok 3 _ eq_refl) as H3.
    pose proof (Hok 4 _ eq_refl) as H4.
    simpl in H0, H1, H2, H3, H4. rewrite app_nil_r in H0.
    exists (warning_unless_one py_str
              "failed to insert record: affected rows: " rows).
    split; [|apply warning_unless_one_none].
    unfold save. rewrite Hfields, Hkey.
    unfold_monad. rewrite Hp. simpl.
    advance H0. advance H1. advance H2. advance H3. advance H4.
    rewrite <- ?app_assoc. simpl. now rewrite ?Hp.
  - intros e w' Hexec. unfold save. now rewrite Hfields, Hkey, Hexec.
Qed.

Lemma save_inserts_resolved_values_witness :
  exists warning,
    save (steady [] 1) str_of (fun _ => None)
      (fun _ n => PInt (Z.of_nat n)) User
      {["id" := PInt 8; "username" := PStr "sly"]} 0 ready
    = (Ok warning, {["id" := PInt 8; "username" := PStr "sly"]}, 0,
       World BoundPool
         [EAcquire; ECursor;
          EExecute
            "insert into `User` (`username`, `email`, `password`, `id`) values (%s, %s, %s, %s)"
            [PStr "sly"; PNone; PNone; PInt 8];
          ECursorClose; ERelease] [])
    /\ (warning = None <-> 1%Z = 1%Z).
Proof.
  assert (Hvals :
            map_getValueOrDefault (fun _ => None)
              (fun _ n => PInt (Z.of_nat n)) User
              (__fields__ User ++ [__primary_key__ User])
              {["id" := PInt 8; "username" := PStr "sly"]} 0
            = (Ok [PStr "sly"; PNone; PNone; PInt 8],
               {["id" := PInt 8; "username" := PStr "sly"]}, 0))
    by (vm_compute; reflexivity).
  destruct (save_inserts_resolved_values (steady [] 1) str_of _ _ _ _ _ _ _
              _ ready Hvals) as [Hsaved _].
  apply Hsaved; [reflexivity|]. intros i ev _. reflexivity.
Defined.

(** X19.  What [save] sent is what a later [update] sends.  When no key
    occurs twice among the fields and the primary key and none of them
    names a class attribute, the values [save] resolved are the ones
    [getValue] reads off the instance afterwards: [update] on that
    instance runs its statement with the very same argument list. *)
Theorem update_resends_saved_values :
  forall (drv : driver) (py_str : pyval -> string)
         (inherited : string -> option pyval)
         (produce : string -> nat -> pyval) (cls : EntityType)
         (self self' : instance) (clock clock' : nat) (vals : list pyval),
    NoDup (__fields__ cls ++ [__primary_key__ cls]) ->
    (forall k, In k (__fields__ cls ++ [__primary_key__ cls]) ->
               class_lookup inherited cls k = None) ->
    map_getValueOrDefault inherited produce cls
      (__fields__ cls ++ [__primary_key__ cls]) self clock
    = (Ok vals, self', clock') ->
    length vals = length (__fields__ cls) + 1
    /\ forall w,
         update drv py_str inherited cls self' w
         = (rows <- execute drv (__update__ cls) vals true ;;
            ret (warning_unless_one py_str
                   "failed to update by primary key: affected rows: "
                   rows)) w.
Proof.
  intros drv py_str inherited produce cls self self' clock clock' vals
    Hnd Hcls Hvals.
  destruct (map_getValueOrDefault_values _ _ _ _ _ _ _ _ _ Hnd Hcls Hvals)
    as (Hlen & _ & Hread).
  split; [rewrite Hlen, length_app; simpl; lia|].
  intros w. unfold update.
  rewrite map_app in Hread. simpl in Hread. now rewrite Hread.
Qed.

Lemma update_resends_saved_values_witness :
  length [PStr "sly"; PNone; PNone; PInt 0] = length (__fields__ User) + 1
  /\ forall w,
       update (steady [] 1) str_of (fun _ => None) User
         (<["id" := PInt 0]> {["username" := PStr "sly"]}) w
       = (rows <- execute (steady [] 1) (__update__ User)
                    [PStr "sly"; PNone; PNone; PInt 0] true ;;
          ret (warning_unless_one str_of
                 "failed to update by primary key: affected rows: " rows))
           w.
Proof.
  apply (update_resends_saved_values (steady [] 1) str_of (fun _ => None)
           (fun _ n => PInt (Z.of_nat n)) User
           {["username" := PStr "sly"]}
           (<["id" := PInt 0]> {["username" := PStr "sly"]}) 3 3
           [PStr "sly"; PNone; PNone; PInt 0]).
  - apply (bool_decide_unpack _). reflexivity.
  - intros k Hin. simpl in Hin.
    repeat (destruct Hin as [<-|Hin]; [reflexivity|]). destruct Hin.
  - vm_compute. reflexivity.
Defined.

(** X20.  [update] generates nothing: for fields and a primary key that
    do not name class attributes it sends, in the order of the update
    template, the values the instance holds, and [None] for a key that was
    never set, whatever default its field has.  On a created pool and a
    driver on which no call fails it returns normally and logs a warning
    exactly when [rowcount] is not [1]. *)
Theorem update_sends_stored_values :
  forall (drv : driver) (py_str : pyval -> string)
         (inherited : string -> option pyval) (cls : EntityType)
         (self : instance) (w : world),
    (forall k, In k (__fields__ cls ++ [__primary_key__ cls]) ->
               class_lookup inherited cls k = None) ->
    __pool w = BoundPool ->
    let calls :=
      [EAcquire; ECursor;
       EExecute (replace_qmark (__update__ cls))
         (map (stored_or_none self)
            (__fields__ cls ++ [__primary_key__ cls]));
       ECursorClose; ERelease] in
    let rows := rowcount drv (trace w ++ take 3 calls) in
    (forall i ev, calls !! i = Some ev ->
                  fails drv (trace w ++ take i calls) ev = None) ->
    exists warning,
      update drv py_str inherited cls self w
      = (Ok warning, World BoundPool (trace w ++ calls) (heap w))
      /\ (warning = None <-> rows = 1%Z).
Proof.
  intros drv py_str inherited cls self w Hcls Hp calls rows Hok.
  pose proof (Hok 0 _ eq_refl) as H0. pose proof (Hok 1 _ eq_refl) as H1.
  pose proof (Hok 2 _ eq_refl) as H2. pose proof (Hok 3 _ eq_refl) as H3.
  pose proof (Hok 4 _ eq_refl) as H4.
  simpl in H0, H1, H2, H3, H4. rewrite app_nil_r in H0.
  exists (warning_unless_one py_str
            "failed to update by primary key: affected rows: " rows).
  split; [|apply warning_unless_one_none].
  assert (Hargs : map (getValue inherited cls self) (__fields__ cls)
                  ++ [getValue inherited cls self (__primary_key__ cls)]
                  = map (stored_or_none self)
                      (__fields__ cls ++ [__primary_key__ cls])).
  { rewrite map_app. simpl. f_equal.
    - apply map_ext_in. intros k Hin. apply getValue_stored.
      apply Hcls. apply in_or_app. now left.
    - f_equal. apply getValue_stored. apply Hcls. apply in_or_app.
      right. now left. }
  unfold update. rewrite Hargs.
  unfold_monad. rewrite Hp. simpl.
  advance H0. advance H1. advance H2. advance H3. advance H4.
  rewrite <- ?app_assoc. simpl. now rewrite ?Hp.
Qed.

Lemma update_sends_stored_values_witness :
  exists warning,
    update (steady [] 0) str_of (fun _ => None) User
      {["id" := PInt 8; "email" := PStr "sly@example.com"]} ready
    = (Ok warning,
       World BoundPool
         [EAcquire; ECursor;
          EExecute
            "update `User` set `username`=%s, `email`=%s, `password`=%s where `id`=%s"
            [PNone; PStr "sly@example.com"; PNone; PInt 8];
          ECursorClose; ERelease] [])
    /\ (warning = None <-> 0%Z = 1%Z).
Proof.
  assert (Hplain : forall k,
             In k (__fields__ User ++ [__primary_key__ User]) ->
             class_lookup (fun _ => None) User k = None).
  { intros k Hin. simpl in Hin.
    repeat (destruct Hin as [<-|Hin]; [reflexivity|]). destruct Hin. }
  exact (update_sends_stored_values (steady [] 0) str_of (fun _ => None)
           User {["id" := PInt 8; "email" := PStr "sly@example.com"]}
           ready Hplain eq_refl (fun i ev _ => eq_refl)).
Defined.

(** X21.  [remove] sends the delete template with one argument, the
    primary-key value the instance holds, [None] when it holds none.  On
    a created pool and a driver on which no call fails it returns
    normally, also when no row was deleted, and logs a warning exactly
    when [rowcount] is not [1]. *)
Theorem remove_deletes_by_stored_key :
  forall (drv : driver) (py_str : pyval -> string)
         (inherited : string -> option pyval) (cls : EntityType)
         (self : instance) (w : world),
    class_lookup inherited cls (__primary_key__ cls) = None ->
    __pool w = BoundPool ->
    let calls :=
      [EAcquire; ECursor;
       EExecute (replace_qmark (__delete__ cls))
         [stored_or_none self (__primary_key__ cls)];
       ECursorClose; ERelease] in
    let rows := rowcount drv (trace w ++ take 3 calls) in
    (forall i ev, calls !! i = Some ev ->
                  fails drv (trace w ++ take i calls) ev = None) ->
    exists warning,
      remove drv py_str inherited cls self w
      = (Ok warning, World BoundPool (trace w ++ calls) (heap w))
      /\ (warning = None <-> rows = 1%Z).
Proof.
  intros drv py_str inherited cls self w Hcls Hp calls rows Hok.
  pose proof (Hok 0 _ eq_refl) as H0. pose proof (Hok 1 _ eq_refl) as H1.
  pose proof (Hok 2 _ eq_refl) as H2. pose proof (Hok 3 _ eq_refl) as H3.
  pose proof (Hok 4 _ eq_refl) as H4.
  simpl in H0, H1, H2, H3, H4. rewrite app_nil_r in H0.
  exists (warning_unless_one py_str
            "failed to remove by primary key: affected rows: " rows).
  split; [|apply warning_unless_one_none].
  unfold remove. rewrite (getValue_stored _ _ _ _ Hcls).
  unfold_monad. rewrite Hp. simpl.
  advance H0. advance H1. advance H2. advance H3. advance H4.
  rewrite <- ?app_assoc. simpl. now rewrite ?Hp.
Qed.

Lemma remove_deletes_by_stored_key_witness :
  exists warning,
    remove (steady [] 0) str_of (fun _ => None) User
      {["username" := PStr "sly"]} ready
    = (Ok warning,
       World BoundPool
         [EAcquire; ECursor;
          EExecute "delete from `User` where `id`=%s" [PNone];
          ECursorClose; ERelease] [])
    /\ (warning = None <-> 0%Z = 1%Z).
Proof.
  exact (remove_deletes_by_stored_key (steady [] 0) str_of (fun _ => None)
           User {["username" := PStr "sly"]} ready eq_refl eq_refl
           (fun i ev _ => eq_refl)).
Defined.

(** ** Query helpers, continued *)

Lemma append_nil_r (a : string) : a +:+ "" = a.
Proof.
  induction a as [|c a IH]; [reflexivity|].
  change (String c (a +:+ "") = String c a). now rewrite IH.
Qed.

Lemma append_assoc (a b c : string) : (a +:+ b) +:+ c = a +:+ b +:+ c.
Proof.
  induction a as [|x a IH]; [reflexivity|].
  change (String x ((a +:+ b) +:+ c) = String x (a +:+ b +:+ c)).
  now rewrite IH.
Qed.

(** The pieces [findNumber] joins with blanks make up the statement
    written out. *)
Lemma findNumber_statement_joined cls selectField where_ :
  join " "
    (match where_ with
     | Some clause =>
         if truthy_str where_
         then ["select " +:+ selectField +:+ " _num_ from `"
               +:+ __table__ cls +:+ "`"] ++ ["where"; clause]
         else ["select " +:+ selectField +:+ " _num_ from `"
               +:+ __table__ cls +:+ "`"]
     | None => ["select " +:+ selectField +:+ " _num_ from `"
                +:+ __table__ cls +:+ "`"]
     end)
  = findNumber_statement cls selectField where_.
Proof.
  unfold findNumber_statement, optional_clause, truthy_str, join.
  destruct where_ as [clause|]; [destruct (String.eqb clause "")|]; simpl;
    rewrite ?append_assoc; simpl; rewrite ?append_assoc; reflexivity.
Qed.

(** X22.  [findNumber] on a created pool and a driver on which no call
    fails: it sends [select <field> _num_ from `<table>`], followed by
    [where <clause>] when a clause is given and not empty, fetches with
    [fetchmany(1)], and returns [None] when no row came back, else the
    column [_num_] of the first row; a first row without that column
    raises [KeyError]. *)
Theorem findNumber_outcome :
  forall (drv : driver) (cls : EntityType) (selectField : string)
         (where_ : option string) (args : option (list pyval)) (w : world),
    __pool w = BoundPool ->
    let calls :=
      [EAcquire; ECursor;
       EExecute (replace_qmark (findNumber_statement cls selectField where_))
         (args_or_empty args);
       EFetchmany 1; ECursorClose; ERelease] in
    (forall i ev, calls !! i = Some ev ->
                  fails drv (trace w ++ take i calls) ev = None) ->
    findNumber drv cls selectField where_ args w
    = (match fetched drv (trace w ++ take 4 calls) with
       | [] => Ok PNone
       | first :: _ =>
           match first !! "_num_" with
           | Some v => Ok v
           | None => Raise (KeyError "_num_")
           end
       end,
       World BoundPool (trace w ++ calls) (heap w)).
Proof.
  intros drv cls selectField where_ args w Hp calls Hok.
  unfold findNumber, bind. rewrite findNumber_statement_joined.
  assert (Hone : 1%Z <> 0%Z) by discriminate.
  rewrite (select_sized drv _ args 1 w Hp Hone Hok).
  subst calls. cbn [take].
  destruct (fetched drv _) as [|first rest]; [reflexivity|].
  now destruct (first !! "_num_").
Qed.

Lemma findNumber_outcome_witness :
  findNumber (steady [<["_num_" := PInt 3]> ∅] 0) User "count(`id`)"
    (Some "`email` like ?") (Some [PStr "%example.com"]) ready
  = (Ok (PInt 3),
     World BoundPool
       [EAcquire; ECursor;
        EExecute "select count(`id`) _num_ from `User` where `email` like %s"
          [PStr "%example.com"];
        EFetchmany 1; ECursorClose; ERelease] []).
Proof.
  exact (findNumber_outcome (steady [<["_num_" := PInt 3]> ∅] 0) User
           "count(`id`)" (Some "`email` like ?")
           (Some [PStr "%example.com"]) ready eq_refl
           (fun i ev _ => eq_refl)).
Defined.

(** [findAll] in terms of the list of clauses it has built when it comes
    to the limit. *)
Lemma findAll_unfold drv py_str cls where_ args orderBy limit :
  findAll drv py_str cls where_ args orderBy limit
  = (target <- match args with
               | None => new_list []
               | Some a => ret a
               end ;;
     sql <- (if negb (is_none limit) then
               if isinstance_int limit then
                 list_extend target [limit] ;;;
                 ret ((findAll_parts cls where_ orderBy ++ ["limit"])
                      ++ ["?"])
               else if isinstance_tuple limit && (len limit =? 2)%nat then
                 list_extend target (items_of limit) ;;;
                 ret ((findAll_parts cls where_ orderBy ++ ["limit"])
                      ++ ["?, ?"])
               else
                 throw (raised "ValueError"
                          ("Invalid limit value: " +:+ py_str limit))
             else ret (findAll_parts cls where_ orderBy)) ;;
     values <- list_items target ;;
     rs <- select drv (join " " sql) (Some values) None ;;
     ret (map Model_init rs)).
Proof. reflexivity. Qed.

(** The clauses joined with blanks make up the statement written out. *)
Lemma findAll_statement_joined cls where_ orderBy :
  join " " (findAll_parts cls where_ orderBy)
  = findAll_statement cls where_ orderBy PNone
  /\ (forall limit, isinstance_int limit = true ->
        join " " ((findAll_parts cls where_ orderBy ++ ["limit"]) ++ ["?"])
        = findAll_statement cls where_ orderBy limit)
  /\ (forall items,
        join " " ((findAll_parts cls where_ orderBy ++ ["limit"]) ++ ["?, ?"])
        = findAll_statement cls where_ orderBy (PTuple items)).
Proof.
  assert (Hint : forall limit, isinstance_int limit = true ->
                               limit_clause limit = " limit ?")
    by (intros [] H; try discriminate H; reflexivity).
  unfold findAll_statement, findAll_parts, optional_clause, truthy_str, join.
  split; [|split; [intros limit Hlimit; rewrite (Hint _ Hlimit)
                  | intros items]];
    (destruct where_ as [wc|]; [destruct (String.eqb wc "")|]);
    (destruct orderBy as [oc|]; [destruct (String.eqb oc "")|]);
    cbn [negb app String.concat limit_clause];
    rewrite ?append_assoc, ?append_nil_r; reflexivity.
Qed.

(** Without a size [select] makes no bounded fetch. *)
Lemma select_unsized_calls drv sql args w :
  exists new,
    trace (select drv sql args None w).2 = trace w ++ new
    /\ count_calls is_bounded_fetch new = 0
    /\ count_calls is_transaction_control new = 0
    /\ count_calls is_statement new <= 1.
Proof.
  unfold_monad.
  destruct (__pool w); simpl;
    try solve [exists []; rewrite app_nil_r; by_cases_on_calls].
  case_calls; name_calls;
    (repeat split; try (unfold count_calls; simpl; lia); reflexivity).
Qed.

(** [findAll] either stops at the limit or runs one [select] without a
    size, from a state with the same trace and pool. *)
Lemma findAll_runs_one_select drv py_str cls where_ args orderBy limit w :
  trace (findAll drv py_str cls where_ args orderBy limit w).2 = trace w
  \/ exists sql vals w1,
       trace w1 = trace w
       /\ trace (findAll drv py_str cls where_ args orderBy limit w).2
          = trace (select drv sql (Some vals) None w1).2.
Proof.
  rewrite findAll_unfold.
  unfold bind, new_list, list_items, list_extend, ret, throw.
  destruct args as [a|]; simpl;
    destruct (is_none limit); simpl;
    try destruct (isinstance_int limit); simpl;
    try destruct (isinstance_tuple limit && (len limit =? 2)%nat); simpl;
    try (left; reflexivity);
    right;
    match goal with
    | |- context [select ?d ?q ?v ?s ?w0] =>
        exists q;
        match v with Some ?l => exists l end;
        exists w0; split; [reflexivity|];
        destruct (select d q v s w0) as [[rs|e] w2]; reflexivity
    end.
Qed.

(** X23.  [findAll] never caps the fetch on the client side: whatever its
    arguments and whatever the driver does, it makes no [fetchmany]; a
    limit only reaches the database inside the one statement it sends.
    It issues no [begin], [commit] or [rollback] either. *)
Theorem findAll_never_bounds_the_fetch :
  forall (drv : driver) (py_str : pyval -> string) (cls : EntityType)
         (where_ : option string) (args : option nat)
         (orderBy : option string) (limit : pyval) (w : world),
    exists new,
      trace (findAll drv py_str cls where_ args orderBy limit w).2
      = trace w ++ new
      /\ count_calls is_bounded_fetch new = 0
      /\ count_calls is_transaction_control new = 0
      /\ count_calls is_statement new <= 1.
Proof.
  intros drv py_str cls where_ args orderBy limit w.
  destruct (findAll_runs_one_select drv py_str cls where_ args orderBy
              limit w) as [Hstop|(sql & vals & w1 & Hw1 & Hrun)].
  - exists []. rewrite app_nil_r. by_cases_on_calls.
  - destruct (select_unsized_calls drv sql (Some vals) w1)
      as (new & Hnew & Hfacts).
    exists new. split; [|exact Hfacts]. now rewrite Hrun, Hnew, Hw1.
Qed.

(** X24.  [findAll] on a created pool and a driver on which no call
    fails, with a limit that is absent, an integer or a tuple of two
    items.  The statement sent is the select template followed by
    [where], [order by] and [limit] clauses, each only when it is given
    (and, for the first two, not empty); the arguments sent are the
    caller's followed by the limit values, as many as the limit clause
    has markers; all rows are fetched with [fetchall] and each becomes an
    instance. *)
Theorem findAll_outcome :
  forall (drv : driver) (py_str : pyval -> string) (cls : EntityType)
         (where_ : option string) (args : option nat)
         (orderBy : option string) (limit : pyval) (w : world),
    limit_accepted limit ->
    (forall a, args = Some a -> a < length (heap w)) ->
    __pool w = BoundPool ->
    let sent := callers_args args w ++ limit_values limit in
    let calls :=
      [EAcquire; ECursor;
       EExecute (replace_qmark (findAll_statement cls where_ orderBy limit))
         sent;
       EFetchall; ECursorClose; ERelease] in
    (forall i ev, calls !! i = Some ev ->
                  fails drv (trace w ++ take i calls) ev = None) ->
    count_qmark (limit_clause limit) = length (limit_values limit)
    /\ exists w',
         findAll drv py_str cls where_ args orderBy limit w
         = (Ok (map Model_init (fetched drv (trace w ++ take 4 calls))), w')
         /\ trace w' = trace w ++ calls
         /\ __pool w' = BoundPool.
Proof.
  intros drv py_str cls where_ args orderBy limit w Hlimit Hargs Hp sent
    calls Hok.
  split.
  { destruct Hlimit as [->|[Hint|(x & y & ->)]]; try reflexivity.
    destruct limit; try discriminate Hint; reflexivity. }
  destruct (findAll_statement_joined cls where_ orderBy)
    as (Hnone & Hint & Hpair).
  assert (Hrun : forall (sql : list string) (w1 : world),
             join " " sql = findAll_statement cls where_ orderBy limit ->
             trace w1 = trace w -> __pool w1 = BoundPool ->
             select drv (join " " sql) (Some sent) None w1
             = (Ok (fetched drv (trace w ++ take 4 calls)),
                World BoundPool (trace w ++ calls) (heap w1))).
  { intros sql w1 Hsql Htrace Hpool. rewrite Hsql.
    assert (Hsent : args_or_empty (Some sent) = sent)
      by (now destruct sent).
    pose proof (select_unsized drv
                  (findAll_statement cls where_ orderBy limit) (Some sent)
                  w1 Hpool) as Hsel.
    cbv zeta in Hsel. rewrite Hsent, Htrace in Hsel. now apply Hsel. }
  rewrite findAll_unfold.
  unfold bind, new_list, list_items, list_extend, ret, throw.
  destruct args as [a|]; simpl.
  - specialize (Hargs a eq_refl).
    destruct (lookup_lt_is_Some_2 _ _ Hargs) as [xs Hxs].
    subst sent calls. unfold callers_args in *. rewrite Hxs in *.
    simpl in *.
    destruct Hlimit as [->|[Hi|(x & y & ->)]]; simpl.
    + rewrite Hxs. simpl. rewrite app_nil_r in *.
      rewrite (Hrun _ w Hnone eq_refl Hp). simpl.
      eexists. repeat split; reflexivity.
    + assert (Hgiven : is_none limit = false) by now destruct limit.
      assert (Hvals : limit_values limit = [limit])
        by (destruct limit; try discriminate Hi; reflexivity).
      rewrite Hgiven, Hi. simpl.
      rewrite list_lookup_alter_eq, Hxs. simpl.
      rewrite Hvals in *.
      rewrite (Hrun _ (World (__pool w) (trace w) _) (Hint _ Hi) eq_refl Hp).
      simpl. eexists. repeat split; reflexivity.
    + rewrite list_lookup_alter_eq, Hxs. simpl.
      rewrite (Hrun _ (World (__pool w) (trace w) _) (Hpair _) eq_refl Hp).
      simpl. eexists. repeat split; reflexivity.
  - subst sent calls. unfold callers_args in *. simpl in *.
    destruct Hlimit as [->|[Hi|(x & y & ->)]]; simpl.
    + rewrite lookup_app_r by lia. rewrite Nat.sub_diag. simpl.
      rewrite (Hrun _ (World (__pool w) (trace w) _) Hnone eq_refl Hp).
      simpl. eexists. repeat split; reflexivity.
    + assert (Hgiven : is_none limit = false) by now destruct limit.
      assert (Hvals : limit_values limit = [limit])
        by (destruct limit; try discriminate Hi; reflexivity).
      rewrite Hgiven, Hi. simpl.
      rewrite list_lookup_alter_eq, lookup_app_r by lia.
      rewrite Nat.sub_diag. simpl. rewrite Hvals in *.
      rewrite (Hrun _ (World (__pool w) (trace w) _) (Hint _ Hi) eq_refl Hp).
      simpl. eexists. repeat split; reflexivity.
    + rewrite list_lookup_alter_eq, lookup_app_r by lia.
      rewrite Nat.sub_diag. simpl.
      rewrite (Hrun _ (World (__pool w) (trace w) _) (Hpair _) eq_refl Hp).
      simpl. eexists. repeat split; reflexivity.
Qed.

Lemma findAll_outcome_witness :
  count_qmark " limit ?, ?" = 2
  /\ exists w',
       findAll (steady [row_of 8; row_of 9] 0) str_of User
         (Some "`email` like ?") (Some 0) (Some "`id` desc")
         (PTuple [PInt 10; PInt 5])
         (World BoundPool [] [[PStr "%example.com"]])
       = (Ok [row_of 8; row_of 9], w')
       /\ trace w'
          = [EAcquire; ECursor;
             EExecute
               "select `id`, `username`, `email`, `password` from `User` where `email` like %s order by `id` desc limit %s, %s"
               [PStr "%example.com"; PInt 10; PInt 5];
             EFetchall; ECursorClose; ERelease]
       /\ __pool w' = BoundPool.
Proof.
  assert (Hlist : forall a, Some 0 = Some a ->
                            a < length [[PStr "%example.com"]])
    by (intros a [= <-]; simpl; lia).
  exact (findAll_outcome (steady [row_of 8; row_of 9] 0) str_of User
           (Some "`email` like ?") (Some 0) (Some "`id` desc")
           (PTuple [PInt 10; PInt 5])
           (World BoundPool [] [[PStr "%example.com"]])
           (or_intror (or_intror (ex_intro _ (PInt 10)
                                    (ex_intro _ (PInt 5) eq_refl))))
           Hlist eq_refl (fun i ev _ => eq_refl)).
Defined.

(** X25.  [findAll] touches no list but the one it appends to.  When the
    caller passes no [args] it works on a list of its own and every list
    the caller holds is as before; when the caller passes a list, every
    other list is as before, and with no limit so is that one.  This holds
    for every limit, malformed ones included, and whatever the driver
    does. *)
Theorem findAll_leaves_other_lists :
  forall (drv : driver) (py_str : pyval -> string) (cls : EntityType)
         (where_ : option string) (args : option nat)
         (orderBy : option string) (limit : pyval) (w : world),
    let w' := (findAll drv py_str cls where_ args orderBy limit w).2 in
    (args = None ->
     forall a, a < length (heap w) -> heap w' !! a = heap w !! a)
    /\ (forall a, args = Some a ->
                  (limit = PNone -> heap w' = heap w)
                  /\ forall other, other <> a ->
                                   heap w' !! other = heap w !! other).
Proof.
  intros drv py_str cls where_ args orderBy limit w w'. subst w'.
  rewrite findAll_unfold.
  unfold bind, new_list, list_items, list_extend, ret, throw.
  assert (Hselect : forall sql vals w1 (k : list row -> M (list instance)),
             (forall rs w2, heap (k rs w2).2 = heap w2) ->
             heap (match select drv sql vals None w1 with
                   | (Ok rs, w2) => k rs w2
                   | (Raise e, w2) => (Raise e, w2)
                   end).2 = heap w1).
  { intros sql vals w1 k Hk.
    pose proof (select_frame drv sql vals None w1) as [Hh _].
    destruct (select drv sql vals None w1) as [[rs|e] w2]; simpl in *;
      [now rewrite Hk | exact Hh]. }
  split.
  - intros -> a Ha. simpl.
    destruct (is_none limit); simpl;
      [rewrite Hselect by reflexivity; simpl; now apply lookup_app_l|].
    destruct (isinstance_int limit); simpl;
      [rewrite Hselect by reflexivity; simpl;
       rewrite list_lookup_alter_ne by lia; now apply lookup_app_l|].
    destruct (isinstance_tuple limit && (len limit =? 2)%nat); simpl;
      [rewrite Hselect by reflexivity; simpl;
       rewrite list_lookup_alter_ne by lia; now apply lookup_app_l|].
    now apply lookup_app_l.
  - intros a ->. simpl. split.
    + intros ->. simpl. now rewrite Hselect by reflexivity.
    + intros other Hne.
      destruct (is_none limit); simpl;
        [now rewrite Hselect by reflexivity|].
      destruct (isinstance_int limit); simpl;
        [rewrite Hselect by reflexivity; simpl;
         now rewrite list_lookup_alter_ne by congruence|].
      destruct (isinstance_tuple limit && (len limit =? 2)%nat); simpl;
        [rewrite Hselect by reflexivity; simpl;
         now rewrite list_lookup_alter_ne by congruence|].
      reflexivity.
Qed.

Lemma findAll_leaves_other_lists_witness :
  heap (findAll lost_connection str_of User None None None (PInt 5)
          (World BoundPool [] [[PStr "kept"]])).2 !! 0
  = Some [PStr "kept"].
Proof.
  destruct (findAll_leaves_other_lists lost_connection str_of User None
              None None (PInt 5) (World BoundPool [] [[PStr "kept"]]))
    as [Hown _].
  exact (Hown eq_refl 0 (le_n 1)).
Defined.
